(** * ZmodDAC1411: a shallow embedding of [zmoddac1411.cpp]

    The driver of the Zmod DAC 1411 is a thin layer over the generic
    [ZMOD] base class.  This development embeds the methods of
    [ZMODDAC1411] as Rocq functions and proves the properties its
    specification states about them, followed by further properties of
    the code itself.

    - C integers are [Z] with the conversions of the C type written out
      ([uint8], [uint16], [uint32]).
    - [float] is IEEE binary32 and [double] is IEEE binary64, both as
      [spec_float] with the operations of [SpecFloat] at precision
      24/128 and 53/1024; every operation is evaluated in the type the C
      usual arithmetic conversions give it.
    - The base class is an interface ([ZmodBase]); the object state is
      the calibration area, the state of the base layer and the trace of
      the base-layer calls made so far. *)

From Stdlib Require Import ZArith Lia Bool List.
From Stdlib Require Import Floats.SpecFloat.
From Stdlib Require Import QArith Qround.
From stdpp Require Import base list.
Import ListNotations.

Local Open Scope Z_scope.

(** ** Machine integers *)

Module CInt.

Definition uint8 (z : Z) : Z := z mod 2 ^ 8.
Definition uint16 (z : Z) : Z := z mod 2 ^ 16.
Definition uint32 (z : Z) : Z := z mod 2 ^ 32.

Definition in_uint8 (z : Z) : Prop := 0 <= z < 2 ^ 8.
Definition in_uint16 (z : Z) : Prop := 0 <= z < 2 ^ 16.
Definition in_int16 (z : Z) : Prop := - 2 ^ 15 <= z < 2 ^ 15.
Definition in_int32 (z : Z) : Prop := - 2 ^ 31 <= z < 2 ^ 31.

(** [size_t] is an unsigned type of [size_bits] bits; the width is the
    platform's. *)
Definition size_t (size_bits : Z) (z : Z) : Z := z mod 2 ^ size_bits.

End CInt.
Import CInt.

(** ** Sample packing *)

(** [uint32_t arrangeChannelData(uint8_t channel, uint16_t data)]:
    [data &= 0x3FFF], then [channel ? data << 2 : data << 18] on the
    32-bit conversion of [data]. *)
Definition arrangeChannelData (channel data : Z) : Z :=
  let data := uint16 (Z.land data 0x3FFF) in
  if negb (channel =? 0)
  then uint32 (Z.shiftl (uint32 data) 2)
  else uint32 (Z.shiftl (uint32 data) 18).

(** [uint32_t arrangeSignedChannelData(uint8_t channel, int16_t data)]:
    the argument is cast to [uint32_t] and then converted to the
    [uint16_t] parameter of [arrangeChannelData]. *)
Definition arrangeSignedChannelData (channel data : Z) : Z :=
  arrangeChannelData channel (uint16 (uint32 data)).

(** ** Floating point *)

(** C [float] and [double] values.  Both are [spec_float]; the name
    records the format the value is canonical in. *)
Abbreviation float := spec_float (only parsing).
Abbreviation double := spec_float (only parsing).

(** IEEE binary32, the C [float]. *)
Module F32.
Definition prec : Z := 24.
Definition emax : Z := 128.
Definition valid (x : float) : bool := valid_binary prec emax x.
Definition of_Z (z : Z) : float := binary_normalize prec emax z 0 false.
(** [(float)d] for a [double] [d]: round to nearest even. *)
Definition of_double (x : double) : float :=
  match x with
  | S754_finite s m e => binary_round prec emax s m e
  | _ => x
  end.
Definition opp : float -> float := SFopp.
Definition add : float -> float -> float := SFadd prec emax.
Definition mul : float -> float -> float := SFmul prec emax.
Definition div : float -> float -> float := SFdiv prec emax.
End F32.

(** IEEE binary64, the C [double]. *)
Module F64.
Definition prec : Z := 53.
Definition emax : Z := 1024.
Definition valid (x : double) : bool := valid_binary prec emax x.
Definition of_Z (z : Z) : double := binary_normalize prec emax z 0 false.
(** [(double)f] for a [float] [f]: exact, the mantissa is realigned. *)
Definition of_float (x : float) : double :=
  match x with
  | S754_finite s m e => binary_round prec emax s m e
  | _ => x
  end.
Definition add : double -> double -> double := SFadd prec emax.
Definition mul : double -> double -> double := SFmul prec emax.
Definition div : double -> double -> double := SFdiv prec emax.
(** A decimal literal [num / den] with both parts exact in binary64 is
    the correctly rounded quotient. *)
Definition literal (num den : Z) : double := div (of_Z num) (of_Z den).
End F64.

(** C comparisons on floating values: false whenever an operand is NaN. *)
Definition float_ge (a b : spec_float) : bool :=
  match SFcompare a b with
  | Some (Gt | Eq) => true
  | _ => false
  end.

Definition float_lt (a b : spec_float) : bool := SFltb a b.

(** The value of a finite [spec_float] as a fraction [SFnum / SFden]. *)
Definition SFnum (x : spec_float) : Z :=
  match x with
  | S754_finite s m e => cond_Zopp s (Zpos m * 2 ^ Z.max e 0)
  | _ => 0
  end.

Definition SFden (x : spec_float) : Z :=
  match x with
  | S754_finite s m e => 2 ^ Z.max (- e) 0
  | _ => 1
  end.

Definition is_finite (x : spec_float) : bool :=
  match x with
  | S754_zero _ | S754_finite _ _ _ => true
  | _ => false
  end.

(** The integral part of a finite value: the fraction is discarded
    (C 6.3.1.4, truncation toward zero).  [None] for NaN and infinities. *)
Definition SFtrunc (x : spec_float) : option Z :=
  match x with
  | S754_zero _ => Some 0
  | S754_finite s m e => Some (cond_Zopp s (Z.shiftl (Zpos m) e))
  | _ => None
  end.

(** A finite value below [2^B] in magnitude: [digits m + e <= B]. *)
Definition mag_below (B : Z) (x : spec_float) : bool :=
  match x with
  | S754_zero _ => true
  | S754_finite _ m e => Zpos (digits2_pos m) + e <=? B
  | _ => false
  end.

(** What the C standard leaves open and the platform fixes: the width of
    [size_t], and the value the conversion of a floating value to
    [int32_t] produces when the integral part is not representable (NaN,
    infinities, magnitude of 2^31 or more). *)
Class Platform := {
  size_bits : Z;
  float_to_int_undef : spec_float -> Z
}.

(** [(int32_t)x] for a [float] or [double] [x]. *)
Definition float_to_int32 {platform : Platform} (x : spec_float) : Z :=
  match SFtrunc x with
  | Some z => if (- 2 ^ 31 <=? z) && (z <? 2 ^ 31) then z
              else float_to_int_undef x
  | None => float_to_int_undef x
  end.

(** ** Calibration arithmetic *)

Definition IDEAL_RANGE_DAC_HIGH : double := Eval vm_compute in F64.literal 50 10.
Definition IDEAL_RANGE_DAC_LOW : double := Eval vm_compute in F64.literal 125 100.
Definition REAL_RANGE_DAC_HIGH : double := Eval vm_compute in F64.literal 532 100.
Definition REAL_RANGE_DAC_LOW : double := Eval vm_compute in F64.literal 133 100.

(** The literal [0.5] of [fval + 0.5]. *)
Definition DBL_HALF : double := Eval vm_compute in F64.literal 5 10.

(** [int32_t computeCoefMult(float cg, uint8_t gain)].  The quotient of
    the two range constants is a [double]; [1 + cg] is a [float] sum,
    promoted for the division; [fval] is a [float]; [fval + 0.5] is a
    [double] sum. *)
Definition computeCoefMult {platform : Platform} (cg : float) (gain : Z) : Z :=
  let fval : float :=
    F32.of_double
      (F64.mul
         (F64.div
            (if negb (gain =? 0)
             then F64.div IDEAL_RANGE_DAC_HIGH REAL_RANGE_DAC_HIGH
             else F64.div IDEAL_RANGE_DAC_LOW REAL_RANGE_DAC_LOW)
            (F64.of_float (F32.add (F32.of_Z 1) cg)))
         (F64.of_float (F32.of_Z (Z.shiftl 1 16)))) in
  let ival := float_to_int32 (F64.add (F64.of_float fval) DBL_HALF) in
  ival.

(** [int32_t computeCoefAdd(float ca, float cg, uint8_t gain)]. *)
Definition computeCoefAdd {platform : Platform} (ca cg : float) (gain : Z) : Z :=
  let fval : float :=
    F32.of_double
      (F64.div
         (F64.of_float (F32.mul (F32.opp ca) (F32.of_Z (uint32 (Z.shiftl 1 17)))))
         (F64.mul
            (if negb (gain =? 0) then REAL_RANGE_DAC_HIGH else REAL_RANGE_DAC_LOW)
            (F64.of_float (F32.add (F32.of_Z 1) cg)))) in
  let ival := float_to_int32 (F64.add (F64.of_float fval) DBL_HALF) in
  ival.

(** [int32_t getSignedRawFromVolt(float voltValue, uint8_t gain)]. *)
Definition getSignedRawFromVolt {platform : Platform} (voltValue : float) (gain : Z) : Z :=
  let vMax : float :=
    F32.of_double
      (if negb (gain =? 0) then IDEAL_RANGE_DAC_HIGH else IDEAL_RANGE_DAC_LOW) in
  if float_ge voltValue vMax then Z.shiftl 1 13 - 1
  else if float_lt voltValue (F32.opp vMax) then Z.shiftl 1 13
  else float_to_int32
         (F32.div (F32.mul voltValue (F32.of_Z (Z.shiftl 1 13))) vMax).

(** ** The device object *)

(** The register fields this file names ([ZMODDAC1411_REGFLD_...]). *)
Inductive regfld : Type :=
| REGFLD_CR_OUT_ADDR_CNT_RST
| REGFLD_CR_DAC_EN
| REGFLD_CR_DIV_RATE
| REGFLD_TRIG_SC1_HG_LG
| REGFLD_TRIG_SC2_HG_LG
| REGFLD_SC1HGMULTCOEF_VAL
| REGFLD_SC1HGADDCOEF_VAL
| REGFLD_SC1LGMULTCOEF_VAL
| REGFLD_SC1LGADDCOEF_VAL
| REGFLD_SC2HGMULTCOEF_VAL
| REGFLD_SC2HGADDCOEF_VAL
| REGFLD_SC2LGMULTCOEF_VAL
| REGFLD_SC2LGADDCOEF_VAL.

(** [CALIBECLYPSEDAC]: of the calibration area, the member
    [float cal[2][2][2]], stored flat in row-major order
    ([channel][gain][multiplicative 0 / additive 1]). *)
Record CALIBECLYPSEDAC : Type := { cal : list float }.

Definition calib_wf (c : CALIBECLYPSEDAC) : Prop := length (cal c) = 8%nat.

(** The flat position of [cal[i][j][k]]; [None] outside the bounds of the
    array, where the access is undefined. *)
Definition cal_index (i j k : Z) : option nat :=
  if (0 <=? i) && (i <? 2) && (0 <=? j) && (j <? 2) && (0 <=? k) && (k <? 2)
  then Some (Z.to_nat (i * 4 + j * 2 + k))
  else None.

Definition cal_get (c : CALIBECLYPSEDAC) (i j k : Z) : option float :=
  match cal_index i j k with
  | Some n => cal c !! n
  | None => None
  end.

Definition cal_set (c : CALIBECLYPSEDAC) (i j k : Z) (v : float)
  : option CALIBECLYPSEDAC :=
  match cal_index i j k with
  | Some n => if (n <? length (cal c))%nat
              then Some {| cal := <[n := v]> (cal c) |}
              else None
  | None => None
  end.

(** The base class [ZMOD], as far as this file calls it.  [HW] is the
    state behind it: register file, DMA engine, flash.  A status is the
    value the call returns; [ZMOD_readUserCalib] fills the calibration
    area it is given. *)
Class ZmodBase (HW : Type) := {
  ERR_SUCCESS : Z;
  ERR_FAIL : Z;
  writeRegFld : regfld -> Z -> HW -> HW;
  setTransferSize : Z -> HW -> HW;
  startDMATransfer : Z -> HW -> Z * HW;
  isDMATransferComplete : HW -> bool * HW;
  ZMOD_readUserCalib :
    option CALIBECLYPSEDAC -> HW -> Z * option CALIBECLYPSEDAC * HW
}.

(** The calls into the base class, in the order they are made. *)
Inductive event : Type :=
| EvWriteRegFld (f : regfld) (v : Z)
| EvSetTransferSize (n : Z)
| EvStartDMATransfer (buffer : Z) (status : Z)
| EvIsDMATransferComplete (done : bool)
| EvReadUserCalib (status : Z).

Record zmod (HW : Type) : Type := {
  calib : option CALIBECLYPSEDAC;   (* the [calib] member; [None] is null *)
  hw : HW;
  trace : list event
}.
Arguments calib {HW} _.
Arguments hw {HW} _.
Arguments trace {HW} _.

(** The result of running a method: it returns, it has no defined
    behaviour (null or out-of-bounds access), or the bound on loop
    iterations given to the model ran out. *)
Inductive outcome (S A : Type) : Type :=
| Returns (a : A) (s : S)
| Undefined
| OutOfFuel.
Arguments Returns {S A} a s.
Arguments Undefined {S A}.
Arguments OutOfFuel {S A}.

Definition M (S A : Type) : Type := S -> outcome S A.

#[global] Instance outcome_ret {S : Type} : MRet (M S) :=
  fun A a s => Returns a s.

#[global] Instance outcome_bind {S : Type} : MBind (M S) :=
  fun A B k m s =>
    match m s with
    | Returns a s' => k a s'
    | Undefined => Undefined
    | OutOfFuel => OutOfFuel
    end.

Section Driver.
Context {HW : Type} {base : ZmodBase HW} {platform : Platform}.

Definition log (e : event) (s : zmod HW) : zmod HW :=
  {| calib := calib s; hw := hw s; trace := trace s ++ [e] |}.

Definition call_writeRegFld (f : regfld) (v : Z) : M (zmod HW) unit :=
  fun s =>
    Returns tt (log (EvWriteRegFld f v)
                  {| calib := calib s; hw := writeRegFld f v (hw s);
                     trace := trace s |}).

Definition call_setTransferSize (n : Z) : M (zmod HW) unit :=
  fun s =>
    Returns tt (log (EvSetTransferSize n)
                  {| calib := calib s; hw := setTransferSize n (hw s);
                     trace := trace s |}).

Definition call_startDMATransfer (buffer : Z) : M (zmod HW) Z :=
  fun s =>
    let '(st, h) := startDMATransfer buffer (hw s) in
    Returns st (log (EvStartDMATransfer buffer st)
                  {| calib := calib s; hw := h; trace := trace s |}).

Definition call_isDMATransferComplete : M (zmod HW) bool :=
  fun s =>
    let '(b, h) := isDMATransferComplete (hw s) in
    Returns b (log (EvIsDMATransferComplete b)
                 {| calib := calib s; hw := h; trace := trace s |}).

Definition call_ZMOD_readUserCalib : M (zmod HW) Z :=
  fun s =>
    let '(st, c, h) := ZMOD_readUserCalib (calib s) (hw s) in
    Returns st (log (EvReadUserCalib st)
                  {| calib := c; hw := h; trace := trace s |}).

(** The [calib] member, as the test [if(calib)] reads it. *)
Definition get_calib : M (zmod HW) (option CALIBECLYPSEDAC) :=
  fun s => Returns (calib s) s.

(** [pCalib->cal[i][j][k]] through the [calib] member. *)
Definition read_cal (i j k : Z) : M (zmod HW) float :=
  fun s =>
    match calib s with
    | Some c => match cal_get c i j k with
                | Some v => Returns v s
                | None => Undefined
                end
    | None => Undefined
    end.

(** [pCalib->cal[i][j][k] = v]. *)
Definition write_cal (i j k : Z) (v : float) : M (zmod HW) unit :=
  fun s =>
    match calib s with
    | Some c => match cal_set c i j k v with
                | Some c' => Returns tt {| calib := Some c'; hw := hw s;
                                           trace := trace s |}
                | None => Undefined
                end
    | None => Undefined
    end.

Definition resetOutputCounter : M (zmod HW) unit :=
  call_writeRegFld REGFLD_CR_OUT_ADDR_CNT_RST 1.

(** [while(!isDMATransferComplete()) {}], at most [fuel] polls. *)
Fixpoint wait_complete (fuel : nat) : M (zmod HW) unit :=
  match fuel with
  | O => fun _ => OutOfFuel
  | S fuel' =>
      done ← call_isDMATransferComplete;
      if negb done then wait_complete fuel' else mret tt
  end.

(** [uint8_t setData(uint32_t* buffer, size_t length)]. *)
Definition setData (fuel : nat) (buffer length : Z) : M (zmod HW) Z :=
  call_setTransferSize (size_t size_bits (length * 4)) ;;
  st ← call_startDMATransfer buffer;
  let Status := uint8 st in
  if negb (Status =? 0) then mret (uint8 ERR_FAIL)
  else
    wait_complete fuel ;;
    mret Status.

Definition start : M (zmod HW) unit := call_writeRegFld REGFLD_CR_DAC_EN 1.

Definition stop : M (zmod HW) unit := call_writeRegFld REGFLD_CR_DAC_EN 0.

Definition setOutputSampleFrequencyDivider (val : Z) : M (zmod HW) unit :=
  call_writeRegFld REGFLD_CR_DIV_RATE val.

(** [int readUserCalib()]. *)
Definition readUserCalib : M (zmod HW) Z :=
  status ← call_ZMOD_readUserCalib;
  (if status =? ERR_SUCCESS then
     c010 ← read_cal 0 1 0;
     call_writeRegFld REGFLD_SC1HGMULTCOEF_VAL (computeCoefMult c010 1) ;;
     c010 ← read_cal 0 1 0; c011 ← read_cal 0 1 1;
     call_writeRegFld REGFLD_SC1HGADDCOEF_VAL (computeCoefAdd c010 c011 1) ;;
     c000 ← read_cal 0 0 0;
     call_writeRegFld REGFLD_SC1LGMULTCOEF_VAL (computeCoefMult c000 0) ;;
     c000 ← read_cal 0 0 0; c001 ← read_cal 0 0 1;
     call_writeRegFld REGFLD_SC1LGADDCOEF_VAL (computeCoefAdd c000 c001 0) ;;
     c110 ← read_cal 1 1 0;
     call_writeRegFld REGFLD_SC2HGMULTCOEF_VAL (computeCoefMult c110 1) ;;
     c110 ← read_cal 1 1 0; c111 ← read_cal 1 1 1;
     call_writeRegFld REGFLD_SC2HGADDCOEF_VAL (computeCoefAdd c110 c111 1) ;;
     c100 ← read_cal 1 0 0;
     call_writeRegFld REGFLD_SC2LGMULTCOEF_VAL (computeCoefMult c100 0) ;;
     c100 ← read_cal 1 0 0; c101 ← read_cal 1 0 1;
     call_writeRegFld REGFLD_SC2LGADDCOEF_VAL (computeCoefAdd c100 c101 0)
   else mret tt) ;;
  mret ERR_SUCCESS.

(** [void setGain(uint8_t channel, uint8_t gain)]. *)
Definition setGain (channel gain : Z) : M (zmod HW) unit :=
  if negb (channel =? 0)
  then call_writeRegFld REGFLD_TRIG_SC2_HG_LG gain
  else call_writeRegFld REGFLD_TRIG_SC1_HG_LG gain.

(** [void setCalibValues(uint8_t channel, uint8_t gain, float valG,
    float valA)]. *)
Definition setCalibValues (channel gain : Z) (valG valA : float)
  : M (zmod HW) unit :=
  pCalib ← get_calib;
  match pCalib with
  | Some _ =>
      write_cal channel gain 0 valG ;;
      write_cal channel gain 1 valA
  | None => mret tt
  end.

End Driver.

(** ** Reference definitions used in the statements *)

Section Reference.
Context {HW : Type} {base : ZmodBase HW} {platform : Platform}.

(** The state of the base layer after [n] polls of the DMA engine. *)
Fixpoint poll_n (n : nat) (h : HW) : HW :=
  match n with
  | O => h
  | S n' => poll_n n' (snd (isDMATransferComplete h))
  end.

(** The DMA engine answers "not complete" to [n] polls and "complete"
    to the next one. *)
Fixpoint completes_after (n : nat) (h : HW) : bool :=
  let '(done, h') := isDMATransferComplete h in
  match n with
  | O => done
  | S n' => negb done && completes_after n' h'
  end.

(** [cal[i][j][k]] of a well-formed record. *)
Definition cal_at (c : CALIBECLYPSEDAC) (i j k : nat) : float :=
  default (S754_zero false) (cal c !! (i * 4 + j * 2 + k)%nat).

(** The eight coefficient register writes of [readUserCalib], in order. *)
Definition coef_writes (c : CALIBECLYPSEDAC) : list (regfld * Z) :=
  [ (REGFLD_SC1HGMULTCOEF_VAL, computeCoefMult (cal_at c 0 1 0) 1);
    (REGFLD_SC1HGADDCOEF_VAL,
      computeCoefAdd (cal_at c 0 1 0) (cal_at c 0 1 1) 1);
    (REGFLD_SC1LGMULTCOEF_VAL, computeCoefMult (cal_at c 0 0 0) 0);
    (REGFLD_SC1LGADDCOEF_VAL,
      computeCoefAdd (cal_at c 0 0 0) (cal_at c 0 0 1) 0);
    (REGFLD_SC2HGMULTCOEF_VAL, computeCoefMult (cal_at c 1 1 0) 1);
    (REGFLD_SC2HGADDCOEF_VAL,
      computeCoefAdd (cal_at c 1 1 0) (cal_at c 1 1 1) 1);
    (REGFLD_SC2LGMULTCOEF_VAL, computeCoefMult (cal_at c 1 0 0) 0);
    (REGFLD_SC2LGADDCOEF_VAL,
      computeCoefAdd (cal_at c 1 0 0) (cal_at c 1 0 1) 0) ].

Definition write_event (w : regfld * Z) : event :=
  EvWriteRegFld (fst w) (snd w).

Definition apply_write (h : HW) (w : regfld * Z) : HW :=
  writeRegFld (fst w) (snd w) h.

Definition is_write (e : event) : bool :=
  match e with
  | EvWriteRegFld _ _ => true
  | _ => false
  end.

Definition is_poll (e : event) : bool :=
  match e with
  | EvIsDMATransferComplete _ => true
  | _ => false
  end.







End Reference.

(** ** A simulated base layer

    Register fields keep the last value written; the DMA engine starts
    with a fixed status and completes after a number of polls; the flash
    load has a fixed status and content. *)
Module Sim.

Record sim_hw : Type := {
  fields : list (regfld * Z);
  transfer_size : Z;
  start_status : Z;
  polls_left : nat;
  flash_status : Z;
  flash_cal : list float
}.

#[export] Instance sim_base : ZmodBase sim_hw := {|
  ERR_SUCCESS := 0;
  ERR_FAIL := 1;
  writeRegFld f v h :=
    {| fields := (f, v) :: fields h; transfer_size := transfer_size h;
       start_status := start_status h; polls_left := polls_left h;
       flash_status := flash_status h; flash_cal := flash_cal h |};
  setTransferSize n h :=
    {| fields := fields h; transfer_size := n;
       start_status := start_status h; polls_left := polls_left h;
       flash_status := flash_status h; flash_cal := flash_cal h |};
  startDMATransfer _ h := (start_status h, h);
  isDMATransferComplete h :=
    match polls_left h with
    | O => (true, h)
    | S n =>
        (false,
         {| fields := fields h; transfer_size := transfer_size h;
            start_status := start_status h; polls_left := n;
            flash_status := flash_status h; flash_cal := flash_cal h |})
    end;
  ZMOD_readUserCalib c h :=
    match c with
    | None => (1, None, h)
    | Some c0 =>
        if flash_status h =? 0
        then (0, Some {| cal := flash_cal h |}, h)
        else (flash_status h, Some c0, h)
    end
|}.

(** A 32-bit platform whose conversion saturates to [INT32_MIN]. *)
#[export] Instance sim_platform : Platform := {|
  size_bits := 32;
  float_to_int_undef _ := - 2 ^ 31
|}.

Definition unit_cal : list float :=
  [ S754_zero false; S754_zero false; S754_zero false; S754_zero false;
    S754_zero false; S754_zero false; S754_zero false; S754_zero false ].

Definition sim_init (start polls : Z) (flash : Z) : sim_hw :=
  {| fields := []; transfer_size := 0; start_status := start;
     polls_left := Z.to_nat polls; flash_status := flash;
     flash_cal := unit_cal |}.

Definition sim_zmod (c : option CALIBECLYPSEDAC) (h : sim_hw) : zmod sim_hw :=
  {| calib := c; hw := h; trace := [] |}.

(** A calibration area in place, all coefficients zero. *)
Definition loaded : option CALIBECLYPSEDAC := Some {| cal := unit_cal |}.

End Sim.

(** ** DMA buffers *)

(** The allocator of the base class: [allocDMABuffer(size)] returns the
    address of the buffer, [freeDMABuffer(buf, size)] releases it. *)
Class ZmodBuffers (HW : Type) := {
  allocDMABuffer : Z -> HW -> Z * HW;
  freeDMABuffer : Z -> Z -> HW -> HW
}.

Section Buffers.
Context {HW : Type} {buffers : ZmodBuffers HW} {platform : Platform}.

(** [uint32_t* allocChannelsBuffer(size_t length)]. *)
Definition allocChannelsBuffer (length : Z) : M (zmod HW) Z :=
  fun s =>
    let '(buf, h) := allocDMABuffer (size_t size_bits (length * 4)) (hw s) in
    Returns buf {| calib := calib s; hw := h; trace := trace s |}.

(** [void freeChannelsBuffer(uint32_t *buf, size_t length)]. *)
Definition freeChannelsBuffer (buf length : Z) : M (zmod HW) unit :=
  fun s =>
    Returns tt {| calib := calib s;
                  hw := freeDMABuffer buf (size_t size_bits (length * 4)) (hw s);
                  trace := trace s |}.

End Buffers.

(** A simulated device with an allocator: buffers are handed out at
    increasing addresses, and the sizes requested and released are
    recorded beside the simulated registers. *)
Module SimBuffers.

Record heap : Type := {
  dev : Sim.sim_hw;
  next_free : Z;
  allocated : list (Z * Z);
  released : list (Z * Z)
}.

Definition with_dev (d : Sim.sim_hw) (h : heap) : heap :=
  {| dev := d; next_free := next_free h;
     allocated := allocated h; released := released h |}.

#[export] Instance heap_base : ZmodBase heap := {|
  ERR_SUCCESS := 0;
  ERR_FAIL := 1;
  writeRegFld f v h :=
    with_dev (writeRegFld (ZmodBase := Sim.sim_base) f v (dev h)) h;
  setTransferSize n h :=
    with_dev (setTransferSize (ZmodBase := Sim.sim_base) n (dev h)) h;
  startDMATransfer b h :=
    let '(st, d) := startDMATransfer (ZmodBase := Sim.sim_base) b (dev h) in
    (st, with_dev d h);
  isDMATransferComplete h :=
    let '(done, d) :=
      isDMATransferComplete (ZmodBase := Sim.sim_base) (dev h) in
    (done, with_dev d h);
  ZMOD_readUserCalib c h :=
    let '(st, c', d) :=
      ZMOD_readUserCalib (ZmodBase := Sim.sim_base) c (dev h) in
    (st, c', with_dev d h)
|}.

#[export] Instance sim_buffers : ZmodBuffers heap := {|
  allocDMABuffer size h :=
    (next_free h,
     {| dev := dev h;
        next_free := next_free h + size;
        allocated := (next_free h, size) :: allocated h;
        released := released h |});
  freeDMABuffer buf size h :=
    {| dev := dev h;
       next_free := next_free h;
       allocated := allocated h;
       released := (buf, size) :: released h |}
|}.

Definition empty_heap : heap :=
  {| dev := Sim.sim_init 0 2 0;
     next_free := 4096; allocated := []; released := [] |}.

End SimBuffers.

(** A base layer that reports success without a calibration area in
    place: the case [readUserCalib] does not test for. *)
Module SimNoArea.

#[export] Instance bare_base : ZmodBase unit := {|
  ERR_SUCCESS := 0;
  ERR_FAIL := 1;
  writeRegFld _ _ h := h;
  setTransferSize _ h := h;
  startDMATransfer _ h := (0, h);
  isDMATransferComplete h := (true, h);
  ZMOD_readUserCalib c h := (0, c, h)
|}.

End SimNoArea.

(** A finite non-zero value or an infinity: neither NaN nor zero. *)
Definition is_nonzero_number (x : spec_float) : bool :=
  match x with
  | S754_finite _ _ _ | S754_infinity _ => true
  | _ => false
  end.

(** * Properties *)

(** ** Sample packing *)

Section Packing.

Lemma mask14_mod (data : Z) : Z.land data 0x3FFF = data mod 2 ^ 14.
Proof. change 0x3FFF with (Z.ones 14). apply Z.land_ones. lia. Qed.

Lemma mask14_range (data : Z) : 0 <= Z.land data 0x3FFF < 2 ^ 14.
Proof. rewrite mask14_mod. apply Z.mod_pos_bound. lia. Qed.

(** No conversion in [arrangeChannelData] loses a bit. *)
Lemma arrangeChannelData_shift (channel data : Z) :
  arrangeChannelData channel data =
  Z.shiftl (Z.land data 0x3FFF) (if channel =? 0 then 18 else 2).
Proof.
  pose proof (mask14_range data) as Hr.
  unfold arrangeChannelData, uint16, uint32.
  rewrite (Z.mod_small (Z.land data 0x3FFF) (2 ^ 16)) by lia.
  rewrite (Z.mod_small (Z.land data 0x3FFF) (2 ^ 32)) by lia.
  destruct (channel =? 0); cbn [negb];
    rewrite Z.shiftl_mul_pow2 by lia; apply Z.mod_small; lia.
Qed.

Lemma arrangeChannelData_testbit (channel data i : Z) :
  0 <= i ->
  Z.testbit (arrangeChannelData channel data) i =
  let lo := if channel =? 0 then 18 else 2 in
  (lo <=? i) && (i <? lo + 14) && Z.testbit data (i - lo).
Proof.
  intros Hi. rewrite arrangeChannelData_shift. cbv zeta.
  set (lo := if channel =? 0 then 18 else 2).
  assert (Hlo : 0 <= lo) by (subst lo; destruct (channel =? 0); lia).
  rewrite Z.shiftl_spec by lia.
  destruct (Z.leb_spec lo i) as [Hle | Hlt]; cbn [andb].
  - rewrite Z.land_spec. change 0x3FFF with (Z.ones 14).
    rewrite Z.testbit_ones_nonneg by lia.
    destruct (Z.ltb_spec (i - lo) 14), (Z.ltb_spec i (lo + 14)); try lia;
      destruct (Z.testbit data (i - lo)); reflexivity.
  - apply Z.testbit_neg_r. lia.
Qed.

Lemma uint16_uint32 (data : Z) : uint16 (uint32 data) = data mod 2 ^ 16.
Proof.
  unfold uint16, uint32. apply Z.mod_mod_divide.
  exists (2 ^ 16). reflexivity.
Qed.

Lemma mask14_mod16 (data : Z) :
  Z.land (data mod 2 ^ 16) 0x3FFF = Z.land data 0x3FFF.
Proof.
  rewrite !mask14_mod. apply Z.mod_mod_divide.
  exists (2 ^ 2). reflexivity.
Qed.

(** C3: for a 16-bit [data] and a channel in {0,1},
    [arrangeChannelData] is the low 14 bits of [data] shifted left by
    18 (channel 0) or by 2 (channel 1), and every bit of the result
    outside that 14-bit window (31..18, resp. 15..2) is zero. *)
Theorem arrangeChannelData_window (channel data : Z) :
  in_uint16 data ->
  channel = 0 \/ channel = 1 ->
  (channel = 0 ->
   arrangeChannelData channel data = Z.shiftl (Z.land data 0x3FFF) 18 /\
   forall i, ~ 18 <= i < 32 ->
             Z.testbit (arrangeChannelData channel data) i = false) /\
  (channel = 1 ->
   arrangeChannelData channel data = Z.shiftl (Z.land data 0x3FFF) 2 /\
   forall i, ~ 2 <= i < 16 ->
             Z.testbit (arrangeChannelData channel data) i = false).
Proof.
  intros _ _. split; intros ->; (split; [apply arrangeChannelData_shift |]);
    intros i Hi; (destruct (Z.lt_ge_cases i 0) as [Hneg | Hpos];
      [apply Z.testbit_neg_r; assumption |]);
    rewrite arrangeChannelData_testbit by assumption; cbn [Z.eqb]; cbv zeta;
    apply andb_false_intro1, andb_false_iff; lia.
Qed.

Lemma arrangeChannelData_window_witness :
  arrangeChannelData 0 0xFFFF = Z.shiftl (Z.land 0xFFFF 0x3FFF) 18 /\
  forall i, ~ 18 <= i < 32 ->
            Z.testbit (arrangeChannelData 0 0xFFFF) i = false.
Proof.
  apply (arrangeChannelData_window 0 0xFFFF).
  - unfold in_uint16. lia.
  - left. reflexivity.
  - reflexivity.
Defined.

(** The claim of C4 for channel 0, bits 17..4, fails: the word packed
    from the channel 0 sample [0x3FFF] and the channel 1 sample [0] has
    those bits clear. *)
Lemma channel0_not_at_bits_17_4 :
  arrangeChannelData 0 0x3FFF = 0xFFFC0000 /\
  ~ (forall d0 d1 : Z,
        in_uint16 d0 -> in_uint16 d1 ->
        Z.land
          (Z.shiftr (Z.lor (arrangeChannelData 0 d0) (arrangeChannelData 1 d1)) 4)
          0x3FFF = Z.land d0 0x3FFF).
Proof.
  split; [reflexivity |]. intros Hclaim.
  assert (Hr : in_uint16 0x3FFF /\ in_uint16 0) by (unfold in_uint16; lia).
  specialize (Hclaim 0x3FFF 0 (proj1 Hr) (proj2 Hr)).
  vm_compute in Hclaim. discriminate Hclaim.
Qed.

(** C4, amended: in the word made of the two channel contributions the
    channel 0 sample is at bits 31..18 and the channel 1 sample at bits
    15..2; bits 17, 16, 1 and 0 are zero and the word fits 32 bits. *)
Theorem packed_word_layout (d0 d1 : Z) :
  in_uint16 d0 -> in_uint16 d1 ->
  let w := Z.lor (arrangeChannelData 0 d0) (arrangeChannelData 1 d1) in
  Z.land (Z.shiftr w 18) 0x3FFF = Z.land d0 0x3FFF /\
  Z.land (Z.shiftr w 2) 0x3FFF = Z.land d1 0x3FFF /\
  (forall i, i = 17 \/ i = 16 \/ i = 1 \/ i = 0 -> Z.testbit w i = false) /\
  0 <= w < 2 ^ 32.
Proof.
  intros _ _ w.
  assert (Hbit : forall i, 0 <= i ->
            Z.testbit w i =
            (18 <=? i) && (i <? 32) && Z.testbit d0 (i - 18)
            || (2 <=? i) && (i <? 16) && Z.testbit d1 (i - 2)).
  { intros i Hi. subst w. rewrite Z.lor_spec.
    rewrite !arrangeChannelData_testbit by assumption. reflexivity. }
  assert (Hnonneg : 0 <= w).
  { subst w. apply Z.lor_nonneg. rewrite !arrangeChannelData_shift.
    pose proof (mask14_range d0). pose proof (mask14_range d1).
    split; apply Z.shiftl_nonneg; lia. }
  repeat split.
  - apply Z.bits_inj'. intros i Hi.
    rewrite !Z.land_spec, Z.shiftr_spec, Hbit by lia.
    change 0x3FFF with (Z.ones 14). rewrite Z.testbit_ones_nonneg by lia.
    replace (i + 18 - 18) with i by lia.
    destruct (Z.ltb_spec i 14).
    + replace (18 <=? i + 18) with true by (symmetry; apply Z.leb_le; lia).
      replace (i + 18 <? 32) with true by (symmetry; apply Z.ltb_lt; lia).
      replace (i + 18 <? 16) with false by (symmetry; apply Z.ltb_ge; lia).
      cbn [andb]. rewrite andb_false_r, orb_false_r. reflexivity.
    + rewrite !andb_false_r. reflexivity.
  - apply Z.bits_inj'. intros i Hi.
    rewrite !Z.land_spec, Z.shiftr_spec, Hbit by lia.
    change 0x3FFF with (Z.ones 14). rewrite Z.testbit_ones_nonneg by lia.
    replace (i + 2 - 2) with i by lia.
    destruct (Z.ltb_spec i 14).
    + replace (2 <=? i + 2) with true by (symmetry; apply Z.leb_le; lia).
      replace (i + 2 <? 16) with true by (symmetry; apply Z.ltb_lt; lia).
      replace (i + 2 <? 32) with true by (symmetry; apply Z.ltb_lt; lia).
      replace (18 <=? i + 2) with false by (symmetry; apply Z.leb_gt; lia).
      cbn [andb orb]. rewrite andb_true_r. reflexivity.
    + rewrite !andb_false_r. reflexivity.
  - intros i [-> | [-> | [-> | ->]]]; rewrite Hbit by lia; reflexivity.
  - exact Hnonneg.
  - apply Z.log2_lt_cancel. destruct (Z.eq_dec w 0) as [-> | Hw0]; [reflexivity |].
    rewrite Z.log2_pow2 by lia.
    destruct (Z.lt_ge_cases (Z.log2 w) 32) as [Hlt | Hge]; [exact Hlt | exfalso].
    assert (Hw : 0 < w) by lia.
    pose proof (Z.bit_log2 w Hw) as Htop.
    rewrite Hbit in Htop by lia.
    replace (Z.log2 w <? 32) with false in Htop by (symmetry; apply Z.ltb_ge; lia).
    replace (Z.log2 w <? 16) with false in Htop by (symmetry; apply Z.ltb_ge; lia).
    rewrite !andb_false_r in Htop. discriminate Htop.
Qed.

Lemma packed_word_layout_witness :
  Z.land (Z.shiftr (Z.lor (arrangeChannelData 0 0x2AAA)
                          (arrangeChannelData 1 0x1555)) 18) 0x3FFF
  = Z.land 0x2AAA 0x3FFF.
Proof.
  apply (packed_word_layout 0x2AAA 0x1555); unfold in_uint16; lia.
Defined.

(** C5: for a 16-bit signed [data], [arrangeSignedChannelData] is
    [arrangeChannelData] of the unsigned two's-complement pattern
    [data mod 2^16]; the low 14 bits of [data] are placed unchanged, and
    [-1] is packed like [0x3FFF]. *)
Theorem arrangeSignedChannelData_pattern (channel data : Z) :
  in_int16 data ->
  channel = 0 \/ channel = 1 ->
  arrangeSignedChannelData channel data =
    arrangeChannelData channel (data mod 2 ^ 16) /\
  arrangeSignedChannelData channel data =
    Z.shiftl (data mod 2 ^ 14) (if channel =? 0 then 18 else 2) /\
  arrangeSignedChannelData channel (-1) = arrangeChannelData channel 0x3FFF.
Proof.
  intros _ _. unfold arrangeSignedChannelData. rewrite !uint16_uint32.
  split; [reflexivity | split].
  - rewrite arrangeChannelData_shift, mask14_mod16, mask14_mod. reflexivity.
  - rewrite !arrangeChannelData_shift. reflexivity.
Qed.

Lemma arrangeSignedChannelData_pattern_witness :
  arrangeSignedChannelData 1 (-2) = arrangeChannelData 1 ((-2) mod 2 ^ 16) /\
  arrangeSignedChannelData 1 (-2) = Z.shiftl ((-2) mod 2 ^ 14) 2 /\
  arrangeSignedChannelData 1 (-1) = arrangeChannelData 1 0x3FFF.
Proof.
  apply (arrangeSignedChannelData_pattern 1 (-2)).
  - unfold in_int16. lia.
  - right. reflexivity.
Defined.

End Packing.

(** ** The device object *)

Section DriverProps.
Context {HW : Type} {base : ZmodBase HW} {platform : Platform}.

Lemma bind_returns {A B : Type} (m : M (zmod HW) A) (k : A -> M (zmod HW) B)
      (s s' : zmod HW) (a : A) :
  m s = Returns a s' -> (m ≫= k) s = k a s'.
Proof. intros Hm. unfold mbind, outcome_bind. rewrite Hm. reflexivity. Qed.

Lemma bind_out_of_fuel {A B : Type} (m : M (zmod HW) A)
      (k : A -> M (zmod HW) B) (s : zmod HW) :
  m s = OutOfFuel -> (m ≫= k) s = OutOfFuel.
Proof. intros Hm. unfold mbind, outcome_bind. rewrite Hm. reflexivity. Qed.

(** *** The completion wait *)

Lemma wait_complete_done (n : nat) :
  forall (fuel : nat) (s : zmod HW),
    completes_after n (hw s) = true ->
    (n < fuel)%nat ->
    wait_complete fuel s =
    Returns tt {| calib := calib s;
                  hw := poll_n (S n) (hw s);
                  trace := trace s
                             ++ repeat (EvIsDMATransferComplete false) n
                             ++ [EvIsDMATransferComplete true] |}.
Proof.
  induction n as [| n IH]; intros fuel s Hc Hlt;
    (destruct fuel as [| fuel]; [lia |]);
    cbn [wait_complete completes_after poll_n] in *;
    unfold mbind, outcome_bind, call_isDMATransferComplete, log;
    destruct (isDMATransferComplete (hw s)) as [done h'] eqn:Hpoll;
    cbn [fst snd calib hw trace] in *.
  - subst done. reflexivity.
  - apply andb_true_iff in Hc as [Hd Hc].
    apply negb_true_iff in Hd. subst done. cbn [negb].
    rewrite IH; cbn [calib hw trace]; [| assumption | lia].
    rewrite <- app_assoc. reflexivity.
Qed.

Lemma wait_complete_never (fuel : nat) :
  forall s : zmod HW,
    (forall n, completes_after n (hw s) = false) ->
    wait_complete fuel s = OutOfFuel.
Proof.
  induction fuel as [| fuel IH]; intros s Hnever; [reflexivity |].
  cbn [wait_complete].
  unfold mbind, outcome_bind, call_isDMATransferComplete, log.
  pose proof (Hnever O) as Hfirst. cbn [completes_after] in Hfirst.
  destruct (isDMATransferComplete (hw s)) as [done h'] eqn:Hpoll.
  subst done. cbn [negb]. apply IH. cbn [hw]. intros n.
  specialize (Hnever (S n)). cbn [completes_after] in Hnever.
  rewrite Hpoll in Hnever. exact Hnever.
Qed.

(** C2: [setData] programs the transfer size [length * 4] (in [size_t]
    arithmetic, which is [length * 4] itself when that fits) and starts
    the transfer.  When the start status is non-zero it returns
    [ERR_FAIL] (as [uint8_t]) with no poll of the DMA engine, whatever
    the bound on polls.  When the status is zero and the engine reports
    completion at poll [n + 1], it makes exactly those polls and returns
    0, the success status; when the engine never reports completion it
    does not return. *)
Theorem setData_outcome (buffer length : Z) (s : zmod HW) (st : Z) (h : HW) :
  startDMATransfer buffer
    (setTransferSize (size_t size_bits (length * 4)) (hw s)) = (st, h) ->
  let started :=
    trace s ++ [EvSetTransferSize (size_t size_bits (length * 4));
                EvStartDMATransfer buffer st] in
  (0 <= length * 4 < 2 ^ size_bits ->
   size_t size_bits (length * 4) = length * 4) /\
  (uint8 st <> 0 ->
   forall fuel,
     setData fuel buffer length s =
     Returns (uint8 ERR_FAIL)
             {| calib := calib s; hw := h; trace := started |}) /\
  (uint8 st = 0 ->
   forall n fuel,
     completes_after n h = true -> (n < fuel)%nat ->
     setData fuel buffer length s =
     Returns 0 {| calib := calib s; hw := poll_n (S n) h;
                  trace := started
                             ++ repeat (EvIsDMATransferComplete false) n
                             ++ [EvIsDMATransferComplete true] |}) /\
  (uint8 st = 0 ->
   (forall n, completes_after n h = false) ->
   forall fuel, setData fuel buffer length s = OutOfFuel).
Proof.
  intros Hstart started.
  assert (Hpre : forall fuel,
    setData fuel buffer length s =
    (if negb (uint8 st =? 0) then mret (uint8 ERR_FAIL)
     else wait_complete fuel ;; mret (uint8 st))
      {| calib := calib s; hw := h; trace := started |}).
  { intros fuel. unfold setData, mbind, outcome_bind at 1 2,
      call_setTransferSize, call_startDMATransfer, log.
    cbn [calib hw trace]. rewrite Hstart. cbn [calib hw trace].
    rewrite <- app_assoc. reflexivity. }
  split; [| split; [| split]].
  - intros Hfit. unfold size_t. apply Z.mod_small. exact Hfit.
  - intros Hne fuel. rewrite Hpre.
    apply Z.eqb_neq in Hne. rewrite Hne. reflexivity.
  - intros Heq n fuel Hc Hlt. rewrite Hpre, Heq. cbn [Z.eqb negb].
    erewrite bind_returns by (apply wait_complete_done; eassumption).
    reflexivity.
  - intros Heq Hnever fuel. rewrite Hpre, Heq. cbn [Z.eqb negb].
    apply bind_out_of_fuel, wait_complete_never. exact Hnever.
Qed.

(** *** Calibration area *)

Lemma cal_index_Some (i j k : Z) (n : nat) :
  cal_index i j k = Some n <->
  (0 <= i < 2 /\ 0 <= j < 2 /\ 0 <= k < 2) /\ n = Z.to_nat (i * 4 + j * 2 + k).
Proof.
  unfold cal_index.
  destruct (Z.leb_spec 0 i), (Z.ltb_spec i 2), (Z.leb_spec 0 j),
    (Z.ltb_spec j 2), (Z.leb_spec 0 k), (Z.ltb_spec k 2);
    cbn [andb]; split; try (intros [=]; subst; split; [lia | reflexivity]);
    try (intros [? ->]; reflexivity); try (intros [=]); try (intros [? _]; lia).
Qed.

Lemma cal_index_lt (i j k : Z) (n : nat) :
  cal_index i j k = Some n -> (n < 8)%nat.
Proof. intros Hn. apply cal_index_Some in Hn as [Hr ->]. lia. Qed.

Lemma cal_index_inj (i j k i' j' k' : Z) (n : nat) :
  cal_index i j k = Some n -> cal_index i' j' k' = Some n ->
  i = i' /\ j = j' /\ k = k'.
Proof.
  intros H1 H2. apply cal_index_Some in H1 as [Hr1 ->].
  apply cal_index_Some in H2 as [Hr2 Heq]. lia.
Qed.

Lemma cal_set_Some (c : CALIBECLYPSEDAC) (i j k : Z) (v : float) (n : nat) :
  calib_wf c -> cal_index i j k = Some n ->
  cal_set c i j k v = Some {| cal := <[n := v]> (cal c) |}.
Proof.
  intros Hwf Hn. unfold cal_set. rewrite Hn.
  pose proof (cal_index_lt _ _ _ _ Hn) as Hlt. unfold calib_wf in Hwf.
  rewrite Hwf. destruct (Nat.ltb_spec n 8); [reflexivity | lia].
Qed.

Lemma read_cal_at (c : CALIBECLYPSEDAC) (i j k : nat) (s : zmod HW) :
  calib s = Some c -> calib_wf c ->
  (i < 2)%nat -> (j < 2)%nat -> (k < 2)%nat ->
  read_cal (Z.of_nat i) (Z.of_nat j) (Z.of_nat k) s =
  Returns (cal_at c i j k) s.
Proof.
  intros Hc Hwf Hi Hj Hk. unfold read_cal, cal_get, cal_at. rewrite Hc.
  assert (Hn : cal_index (Z.of_nat i) (Z.of_nat j) (Z.of_nat k)
               = Some (i * 4 + j * 2 + k)%nat).
  { apply cal_index_Some. split; [lia |]. lia. }
  rewrite Hn.
  destruct (lookup_lt_is_Some_2 (cal c) (i * 4 + j * 2 + k)%nat) as [v Hv].
  { unfold calib_wf in Hwf. lia. }
  rewrite Hv. reflexivity.
Qed.

(** Outside [cal[2][2][2]] the store has no defined behaviour. *)
Lemma setCalibValues_out_of_bounds (channel gain : Z) (valG valA : float)
      (s : zmod HW) (c : CALIBECLYPSEDAC) :
  calib s = Some c ->
  ~ (0 <= channel < 2 /\ 0 <= gain < 2) ->
  setCalibValues channel gain valG valA s = Undefined.
Proof.
  intros Hc Hout.
  assert (Hn : cal_index channel gain 0 = None).
  { destruct (cal_index channel gain 0) as [n |] eqn:Hn; [| reflexivity].
    apply cal_index_Some in Hn. lia. }
  unfold setCalibValues, mbind, outcome_bind, get_calib, write_cal.
  cbv beta iota. rewrite Hc. cbv beta iota. rewrite Hc.
  unfold cal_set. rewrite Hn. reflexivity.
Qed.

(** C9: with a null [calib] member [setCalibValues] returns and leaves
    the whole state as it was.  With a loaded record and indexes inside
    [cal[2][2][2]] it returns, stores [valG] at [[channel][gain][0]] and
    [valA] at [[channel][gain][1]], both read back as stored, changes no
    other entry, and touches neither the base layer nor the flash. *)
Theorem setCalibValues_record (channel gain : Z) (valG valA : float)
        (s : zmod HW) :
  (calib s = None -> setCalibValues channel gain valG valA s = Returns tt s) /\
  (forall c,
      calib s = Some c -> calib_wf c ->
      0 <= channel < 2 -> 0 <= gain < 2 ->
      exists c',
        setCalibValues channel gain valG valA s =
        Returns tt {| calib := Some c'; hw := hw s; trace := trace s |} /\
        calib_wf c' /\
        cal_get c' channel gain 0 = Some valG /\
        cal_get c' channel gain 1 = Some valA /\
        forall i j k, i <> channel \/ j <> gain ->
                      cal_get c' i j k = cal_get c i j k).
Proof.
  split.
  - intros Hnull. unfold setCalibValues, mbind, outcome_bind, get_calib.
    rewrite Hnull. reflexivity.
  - intros c Hc Hwf Hch Hg.
    destruct (cal_index channel gain 0) as [n0 |] eqn:Hn0;
      [| exfalso; unfold cal_index in Hn0;
         destruct (Z.leb_spec 0 channel), (Z.ltb_spec channel 2),
           (Z.leb_spec 0 gain), (Z.ltb_spec gain 2); try lia;
         discriminate Hn0].
    destruct (cal_index channel gain 1) as [n1 |] eqn:Hn1;
      [| exfalso; unfold cal_index in Hn1;
         destruct (Z.leb_spec 0 channel), (Z.ltb_spec channel 2),
           (Z.leb_spec 0 gain), (Z.ltb_spec gain 2); try lia;
         discriminate Hn1].
    pose proof (cal_index_lt _ _ _ _ Hn0) as Hlt0.
    pose proof (cal_index_lt _ _ _ _ Hn1) as Hlt1.
    assert (Hne : n1 <> n0).
    { intros ->. pose proof (cal_index_inj _ _ _ _ _ _ _ Hn0 Hn1). lia. }
    set (c1 := {| cal := <[n0 := valG]> (cal c) |}).
    assert (Hwf1 : calib_wf c1).
    { unfold calib_wf, c1. cbn [cal]. rewrite length_insert. exact Hwf. }
    exists {| cal := <[n1 := valA]> (cal c1) |}.
    unfold calib_wf in Hwf.
    split; [| split; [| split; [| split]]].
    + unfold setCalibValues, mbind, outcome_bind, get_calib, write_cal.
      cbv beta iota. rewrite Hc. cbv beta iota. rewrite Hc.
      rewrite (cal_set_Some c _ _ _ _ n0 Hwf Hn0). cbn [calib hw trace].
      fold c1. rewrite (cal_set_Some c1 _ _ _ _ n1 Hwf1 Hn1). reflexivity.
    + unfold calib_wf. cbn [cal]. rewrite length_insert. exact Hwf1.
    + unfold cal_get. rewrite Hn0. cbn [cal].
      rewrite list_lookup_insert_ne by exact Hne.
      apply list_lookup_insert_eq. lia.
    + unfold cal_get. rewrite Hn1. cbn [cal].
      apply list_lookup_insert_eq. unfold calib_wf in Hwf1. lia.
    + intros i j k Hother. unfold cal_get.
      destruct (cal_index i j k) as [n |] eqn:Hn; [| reflexivity].
      unfold c1. cbn [cal].
      rewrite !list_lookup_insert_ne; [reflexivity | |];
        intros ->; [pose proof (cal_index_inj _ _ _ _ _ _ _ Hn0 Hn)
                   | pose proof (cal_index_inj _ _ _ _ _ _ _ Hn1 Hn)]; lia.
Qed.

(** C10: a channel other than 0 is treated like channel 1:
    [arrangeChannelData] shifts the masked data left by 2, and [setGain]
    writes the gain-select field of channel 2. *)
Theorem channel_nonzero_is_channel_1 (channel data gain : Z) (s : zmod HW) :
  in_uint8 channel -> channel <> 0 ->
  arrangeChannelData channel data = arrangeChannelData 1 data /\
  arrangeChannelData channel data = Z.shiftl (Z.land data 0x3FFF) 2 /\
  setGain channel gain s = setGain 1 gain s /\
  setGain channel gain s =
  Returns tt {| calib := calib s;
                hw := writeRegFld REGFLD_TRIG_SC2_HG_LG gain (hw s);
                trace := trace s ++ [EvWriteRegFld REGFLD_TRIG_SC2_HG_LG gain] |}.
Proof.
  intros _ Hne. apply Z.eqb_neq in Hne.
  rewrite !arrangeChannelData_shift. unfold setGain. rewrite Hne.
  repeat split.
Qed.

(** *** Calibration load *)

Lemma writeRegFld_returns (f : regfld) (v : Z) (s : zmod HW) :
  call_writeRegFld f v s =
  Returns tt {| calib := calib s; hw := writeRegFld f v (hw s);
                trace := trace s ++ [EvWriteRegFld f v] |}.
Proof. reflexivity. Qed.

Ltac run_read c Hwf :=
  lazymatch goal with
  | |- (read_cal ?i ?j ?k ≫= _) _ = _ =>
      erewrite (bind_returns (read_cal i j k))
        by (apply (read_cal_at c (Z.to_nat i) (Z.to_nat j) (Z.to_nat k));
            [reflexivity | exact Hwf | cbn; lia | cbn; lia | cbn; lia])
  end.

Ltac run_write :=
  erewrite (bind_returns (call_writeRegFld _ _))
    by apply writeRegFld_returns.

(** C1: [readUserCalib] returns [ERR_SUCCESS] whatever status the base
    layer's load returned.  After the base-layer call it writes the
    eight coefficient fields, in the order of the source, exactly when
    that status is [ERR_SUCCESS], and writes no register otherwise.
    The base layer is assumed to report success only with a
    calibration area in place. *)
Theorem readUserCalib_outcome (s : zmod HW) (status : Z)
        (c' : option CALIBECLYPSEDAC) (h' : HW) :
  ZMOD_readUserCalib (calib s) (hw s) = (status, c', h') ->
  (status = ERR_SUCCESS -> exists c, c' = Some c /\ calib_wf c) ->
  exists writes : list (regfld * Z),
    readUserCalib s =
    Returns ERR_SUCCESS
            {| calib := c';
               hw := foldl apply_write h' writes;
               trace := trace s ++ EvReadUserCalib status
                                :: map write_event writes |} /\
    (status = ERR_SUCCESS ->
     length writes = 8%nat /\
     forall c, c' = Some c -> writes = coef_writes c) /\
    (status <> ERR_SUCCESS -> writes = []).
Proof.
  intros Hbase Hok.
  assert (Hload : call_ZMOD_readUserCalib s =
                  Returns status {| calib := c'; hw := h';
                                    trace := trace s ++ [EvReadUserCalib status] |}).
  { unfold call_ZMOD_readUserCalib. rewrite Hbase. reflexivity. }
  unfold readUserCalib. rewrite (bind_returns _ _ _ _ _ Hload).
  destruct (Z.eqb_spec status ERR_SUCCESS) as [Heq | Hne].
  - destruct (Hok Heq) as (c & -> & Hwf).
    exists (coef_writes c). split; [| split].
    + erewrite bind_returns; [reflexivity |].
      run_read c Hwf. run_write. run_read c Hwf. run_read c Hwf. run_write.
      run_read c Hwf. run_write. run_read c Hwf. run_read c Hwf. run_write.
      run_read c Hwf. run_write. run_read c Hwf. run_read c Hwf. run_write.
      run_read c Hwf. run_write. run_read c Hwf. run_read c Hwf.
      rewrite writeRegFld_returns.
      cbn [calib hw trace]. rewrite <- !app_assoc. reflexivity.
    + intros _. split; [reflexivity |]. intros c0 [= ->]. reflexivity.
    + intros Hcontra. contradiction.
  - exists []. split; [| split].
    + reflexivity.
    + intros Hcontra. contradiction.
    + intros _. reflexivity.
Qed.

End DriverProps.

(** ** Calibration arithmetic *)

Section Arithmetic.
Context {platform : Platform}.

Lemma float_lt_opp_not_ge (v : float) (m : positive) (e : Z) :
  float_lt v (F32.opp (S754_finite false m e)) = true ->
  float_ge v (S754_finite false m e) = false.
Proof.
  unfold float_lt, float_ge, SFltb, F32.opp.
  destruct v as [s | s | | s m' e']; cbn [SFopp SFcompare negb];
    try destruct s; try discriminate; reflexivity.
Qed.

(** C6: at or above [vMax] the result is [2^13 - 1 = 8191]; below
    [-vMax] it is [2^13 = 8192]; and the three sample points of the
    specification evaluate as it says. *)
Theorem getSignedRawFromVolt_clamp (voltValue : float) (gain : Z) :
  gain = 0 \/ gain = 1 ->
  let vMax := if gain =? 1 then F32.of_Z 5 else F32.of_double (F64.literal 125 100) in
  (float_ge voltValue vMax = true ->
   getSignedRawFromVolt voltValue gain = 2 ^ 13 - 1) /\
  (float_lt voltValue (F32.opp vMax) = true ->
   getSignedRawFromVolt voltValue gain = 2 ^ 13) /\
  getSignedRawFromVolt (F32.of_Z 5) 1 = 8191 /\
  getSignedRawFromVolt (F32.of_Z (-10)) 1 = 8192 /\
  getSignedRawFromVolt (S754_zero false) 0 = 0.
Proof.
  intros Hgain vMax.
  assert (HvMax : F32.of_double
                    (if negb (gain =? 0) then IDEAL_RANGE_DAC_HIGH
                     else IDEAL_RANGE_DAC_LOW) = vMax).
  { subst vMax. destruct Hgain as [-> | ->]; reflexivity. }
  unfold getSignedRawFromVolt. rewrite HvMax.
  split; [| split; [| split; [| split]]]; try reflexivity.
  - intros Hge. rewrite Hge. reflexivity.
  - intros Hlt.
    assert (Hnot : float_ge voltValue vMax = false).
    { subst vMax. destruct Hgain as [-> | ->];
        apply float_lt_opp_not_ge; exact Hlt. }
    rewrite Hnot, Hlt. reflexivity.
Qed.

Lemma float_lt_not_ge (a b : float) :
  float_lt a b = true -> float_ge a b = false.
Proof.
  unfold float_lt, float_ge, SFltb.
  destruct (SFcompare a b) as [[ | | ] |]; auto.
Qed.

Lemma float_ge_not_lt (a b : float) :
  float_ge a b = true -> float_lt a b = false.
Proof.
  unfold float_lt, float_ge, SFltb.
  destruct (SFcompare a b) as [[ | | ] |]; auto.
Qed.

End Arithmetic.

(** ** Magnitude of rounded results

    A finite float [m * 2^e] lies below [2^(digits m + e)].  The lemmas
    of this section bound that exponent through rounding,
    multiplication and division. *)

Section Magnitude.
Variables prec emax : Z.
Hypothesis prec_pos : 0 < prec.

Lemma digits2_pos_size (p : positive) : digits2_pos p = Pos.size p.
Proof. induction p as [p IH | p IH |]; cbn; rewrite ?IH; reflexivity. Qed.

Lemma Zdigits2_log2 (m : Z) : 0 < m -> Zdigits2 m = Z.log2 m + 1.
Proof.
  destruct m as [| p | p]; try lia. intros _. cbn [Zdigits2].
  rewrite digits2_pos_size.
  destruct p as [p | p |]; cbn [Z.log2 Pos.size]; lia.
Qed.

Lemma Zdigits2_nonneg (m : Z) : 0 <= Zdigits2 m.
Proof. destruct m; cbn; lia. Qed.

Lemma Zdigits2_succ (m : Z) : 0 <= m -> Zdigits2 (m + 1) <= Zdigits2 m + 1.
Proof.
  intros Hm. destruct (Z.eq_dec m 0) as [-> | Hne]; [vm_compute; intros [=] |].
  rewrite !Zdigits2_log2 by lia.
  pose proof (Z.log2_succ_le m). unfold Z.succ in *. lia.
Qed.

Lemma Zdigits2_le (a b : Z) : 0 <= a <= b -> Zdigits2 a <= Zdigits2 b.
Proof.
  intros [Ha Hab]. destruct (Z.eq_dec a 0) as [-> | Hne].
  - apply Zdigits2_nonneg.
  - rewrite !Zdigits2_log2 by lia. pose proof (Z.log2_le_mono a b Hab). lia.
Qed.

Lemma Zdigits2_mul (a b : Z) :
  0 < a -> 0 < b -> Zdigits2 (a * b) <= Zdigits2 a + Zdigits2 b.
Proof.
  intros Ha Hb. rewrite !Zdigits2_log2 by lia.
  pose proof (Z.log2_mul_above a b). lia.
Qed.

Lemma Zdigits2_div_pow2 (m n : Z) :
  0 <= n -> 0 < m / 2 ^ n -> Zdigits2 (m / 2 ^ n) + n <= Zdigits2 m.
Proof.
  intros Hn Hq.
  assert (Hm : 0 < m).
  { destruct (Z.lt_ge_cases 0 m) as [Hlt | Hge]; [exact Hlt |].
    assert (m / 2 ^ n <= 0); [| lia].
    apply Z.div_le_upper_bound; lia. }
  rewrite !Zdigits2_log2 by lia.
  rewrite <- Z.shiftr_div_pow2 in * by lia.
  rewrite Z.log2_shiftr by lia.
  assert (n <= Z.log2 m); [| lia].
  apply Z.log2_le_pow2; [lia |].
  rewrite Z.shiftr_div_pow2 in Hq by lia.
  destruct (Z.lt_ge_cases m (2 ^ n)) as [Hlt | Hge]; [| exact Hge].
  rewrite Z.div_small in Hq by lia. lia.
Qed.

Lemma Zdigits2_quot (a b : Z) :
  0 < b -> 0 < a / b -> Zdigits2 (a / b) <= Zdigits2 a - Zdigits2 b + 1.
Proof.
  intros Hb Hq.
  assert (Ha : 0 < a).
  { destruct (Z.lt_ge_cases 0 a) as [Hlt | Hge]; [exact Hlt |].
    assert (a / b <= 0); [| lia].
    apply Z.div_le_upper_bound; lia. }
  rewrite !Zdigits2_log2 by lia.
  pose proof (Z.log2_mul_below (a / b) b Hq Hb) as Hbelow.
  pose proof (Z.mul_div_le a b Hb) as Hle.
  pose proof (Z.log2_le_mono (a / b * b) a) as Hmono.
  rewrite (Z.mul_comm b) in Hle. specialize (Hmono Hle). lia.
Qed.

(** *** Right shifts *)

Lemma shr_1_m (mrs : shr_record) :
  0 <= shr_m mrs -> shr_m (shr_1 mrs) = shr_m mrs / 2.
Proof.
  destruct mrs as [m r s]. cbn [shr_m shr_1].
  destruct m as [| [p | p |] | p]; intros Hm; cbn [shr_m]; try lia.
  - reflexivity.
  - apply (Z.div_unique _ 2 _ 1); lia.
  - apply (Z.div_unique _ 2 _ 0); lia.
  - reflexivity.
Qed.

Lemma pow2_double (x : Z) : 0 <= x -> 2 ^ x * 2 ^ x = 2 ^ (2 * x).
Proof.
  intros Hx. replace (2 * x) with (x + x) by lia.
  rewrite Z.pow_add_r by lia. reflexivity.
Qed.

Lemma pow2_double_succ (x : Z) :
  0 <= x -> 2 * (2 ^ x * 2 ^ x) = 2 ^ (2 * x + 1).
Proof.
  intros Hx. rewrite Z.pow_add_r, Z.pow_1_r, <- pow2_double by lia. ring.
Qed.

Lemma iter_shr_1_m (p : positive) :
  forall mrs : shr_record,
    0 <= shr_m mrs ->
    shr_m (SpecFloat.iter_pos shr_1 p mrs) = shr_m mrs / 2 ^ Zpos p.
Proof.
  assert (Hnn : forall a n, 0 <= a -> 0 <= n -> 0 <= a / 2 ^ n).
  { intros a n Ha Hn. apply Z.div_pos; lia. }
  induction p as [p IH | p IH |]; intros mrs Hm; cbn [SpecFloat.iter_pos].
  - assert (H1 : 0 <= shr_m (shr_1 mrs)).
    { rewrite shr_1_m by exact Hm. apply (Hnn _ 1); lia. }
    pose proof (IH _ H1) as E1.
    assert (H2 : 0 <= shr_m (SpecFloat.iter_pos shr_1 p (shr_1 mrs))).
    { rewrite E1. apply Hnn; lia. }
    rewrite (IH _ H2), E1, shr_1_m by exact Hm.
    rewrite !Z.div_div by lia. f_equal.
    rewrite Pos2Z.inj_xI. apply pow2_double_succ. lia.
  - pose proof (IH _ Hm) as E1.
    assert (H2 : 0 <= shr_m (SpecFloat.iter_pos shr_1 p mrs)).
    { rewrite E1. apply Hnn; lia. }
    rewrite (IH _ H2), E1.
    rewrite !Z.div_div by lia. f_equal.
    rewrite Pos2Z.inj_xO. apply pow2_double. lia.
  - apply shr_1_m. exact Hm.
Qed.

Lemma shr_record_of_loc_m (m : Z) (l : location) :
  shr_m (shr_record_of_loc m l) = m.
Proof. destruct l as [| []]; reflexivity. Qed.

Lemma shr_fexp_m (m e : Z) (l : location) :
  0 <= m ->
  let e' := Z.max e (fexp prec emax (Zdigits2 m + e)) in
  snd (shr_fexp prec emax m e l) = e' /\
  shr_m (fst (shr_fexp prec emax m e l)) = m / 2 ^ (e' - e).
Proof.
  intros Hm e'. unfold shr_fexp, shr. subst e'.
  set (n := fexp prec emax (Zdigits2 m + e) - e).
  destruct n as [| p | p] eqn:Hn; cbn [fst snd].
  - replace (Z.max e _) with e by lia.
    rewrite Z.sub_diag, Z.div_1_r. split; [reflexivity |].
    apply shr_record_of_loc_m.
  - replace (Z.max e _) with (e + Zpos p) by lia. split; [reflexivity |].
    rewrite iter_shr_1_m by (rewrite shr_record_of_loc_m; exact Hm).
    rewrite shr_record_of_loc_m. f_equal. f_equal. lia.
  - replace (Z.max e _) with e by lia.
    rewrite Z.sub_diag, Z.div_1_r. split; [reflexivity |].
    apply shr_record_of_loc_m.
Qed.

Lemma round_nearest_even_bounds (m : Z) (l : location) :
  m <= round_nearest_even m l <= m + 1.
Proof.
  unfold round_nearest_even.
  destruct l as [| []]; try destruct (Z.even m); lia.
Qed.

(** *** Rounding *)

Lemma fexp_le (x B : Z) :
  x - prec <= B -> SpecFloat.emin prec emax <= B -> fexp prec emax x <= B.
Proof. unfold fexp. lia. Qed.

Lemma binary_round_aux_mag (sx : bool) (mx ex : Z) (lx : location) (B : Z) :
  0 <= mx -> Zdigits2 mx + ex <= B ->
  SpecFloat.emin prec emax <= B <= emax - prec ->
  mag_below (B + 1) (binary_round_aux prec emax sx mx ex lx) = true.
Proof.
  intros Hmx HB [Hlo Hhi]. unfold binary_round_aux.
  pose proof (Zdigits2_nonneg mx) as Hdmx.
  destruct (shr_fexp_m mx ex lx Hmx) as [He1 Hm1].
  destruct (shr_fexp prec emax mx ex lx) as [mrs1 e1]. cbn [fst snd] in He1, Hm1.
  rewrite <- He1 in Hm1.
  set (m1 := shr_m mrs1) in *.
  pose proof (round_nearest_even_bounds m1 (loc_of_shr_record mrs1)) as Hrnd.
  set (m1' := round_nearest_even m1 (loc_of_shr_record mrs1)) in *.
  assert (He1B : e1 <= B).
  { rewrite He1. apply Z.max_lub; [lia | apply fexp_le; lia]. }
  assert (Hex1 : ex <= e1) by lia.
  assert (Hm1nn : 0 <= m1).
  { rewrite Hm1. apply Z.div_pos; [exact Hmx | apply Z.pow_pos_nonneg; lia]. }
  assert (Hd1 : Zdigits2 m1' + e1 <= B + 1).
  { destruct (Z.eq_dec m1 0) as [Hz | Hnz].
    - assert (Zdigits2 m1' <= Zdigits2 1) by (apply Zdigits2_le; lia).
      change (Zdigits2 1) with 1 in *. lia.
    - assert (Zdigits2 m1 + (e1 - ex) <= Zdigits2 mx).
      { rewrite Hm1. apply Zdigits2_div_pow2; [lia |]. rewrite <- Hm1. lia. }
      assert (Zdigits2 m1' <= Zdigits2 (m1 + 1)) by (apply Zdigits2_le; lia).
      pose proof (Zdigits2_succ m1 Hm1nn). lia. }
  assert (Hm1'nn : 0 <= m1') by lia.
  destruct (shr_fexp_m m1' e1 loc_Exact Hm1'nn) as [He2 Hm2].
  destruct (shr_fexp prec emax m1' e1 loc_Exact) as [mrs2 e2].
  cbn [fst snd] in He2, Hm2. rewrite <- He2 in Hm2.
  assert (He2B : e2 <= B).
  { rewrite He2. apply Z.max_lub; [lia | apply fexp_le; lia]. }
  destruct (shr_m mrs2) as [| m2 | m2] eqn:Hm2v.
  - reflexivity.
  - replace (e2 <=? emax - prec) with true by (symmetry; apply Z.leb_le; lia).
    cbn [mag_below]. apply Z.leb_le.
    assert (Zdigits2 (Z.pos m2) + (e2 - e1) <= Zdigits2 m1').
    { rewrite Hm2. apply Zdigits2_div_pow2; [lia |]. rewrite <- Hm2. lia. }
    cbn [Zdigits2] in *. lia.
  - exfalso. assert (0 <= m1' / 2 ^ (e2 - e1)); [| lia].
    apply Z.div_pos; [lia | apply Z.pow_pos_nonneg; lia].
Qed.

Lemma SFmul_mag (x y : spec_float) (Bx By : Z) :
  mag_below Bx x = true -> mag_below By y = true ->
  SpecFloat.emin prec emax <= Bx + By <= emax - prec ->
  mag_below (Bx + By + 1) (SFmul prec emax x y) = true.
Proof.
  intros Hx Hy HB.
  destruct x as [sx | sx | | sx mx ex], y as [sy | sy | | sy my ey];
    try discriminate; try reflexivity.
  cbn [mag_below SFmul] in *. apply Z.leb_le in Hx, Hy.
  apply binary_round_aux_mag; [lia | | exact HB].
  rewrite Pos2Z.inj_mul.
  pose proof (Zdigits2_mul (Z.pos mx) (Z.pos my)) as Hmul.
  cbn [Zdigits2] in Hmul |- *. cbn [Zdigits2] in Hmul. lia.
Qed.

Lemma SFdiv_mag (x : spec_float) (sy : bool) (my : positive) (ey : Z) (Bx : Z) :
  mag_below Bx x = true ->
  let By := Zpos (digits2_pos my) + ey in
  SpecFloat.emin prec emax <= Bx - By + 1 <= emax - prec ->
  mag_below (Bx - By + 2) (SFdiv prec emax x (S754_finite sy my ey)) = true.
Proof.
  intros Hx By HB.
  destruct x as [sx | sx | | sx mx ex]; try discriminate; try reflexivity.
  cbn [mag_below SFdiv] in *. apply Z.leb_le in Hx.
  unfold SFdiv_core_binary. cbn [Zdigits2].
  set (d1 := Z.pos (digits2_pos mx)) in *.
  set (d2 := Z.pos (digits2_pos my)) in *.
  set (e' := Z.min (fexp prec emax (d1 + ex - (d2 + ey))) (ex - ey)).
  set (s := ex - ey - e').
  set (m' := match s with
             | 0 => Z.pos mx
             | Z.pos _ => Z.shiftl (Z.pos mx) s
             | Z.neg _ => 0
             end).
  assert (Hs : 0 <= s) by (subst s e'; lia).
  assert (Hm' : m' = Z.shiftl (Z.pos mx) s).
  { subst m'. destruct s; [reflexivity | reflexivity | lia]. }
  assert (Hm'pos : 0 < m').
  { rewrite Hm', Z.shiftl_mul_pow2 by exact Hs.
    apply Z.mul_pos_pos; [lia | apply Z.pow_pos_nonneg; lia]. }
  assert (Hdm' : Zdigits2 m' = d1 + s).
  { rewrite Zdigits2_log2 by exact Hm'pos.
    rewrite Hm', Z.log2_shiftl by lia.
    pose proof (Zdigits2_log2 (Z.pos mx)) as Hl. cbn [Zdigits2] in Hl.
    fold d1 in Hl. lia. }
  assert (Hq : fst (Z.div_eucl m' (Z.pos my)) = m' / Z.pos my) by reflexivity.
  destruct (Z.div_eucl m' (Z.pos my)) as [q r]. cbn [fst] in Hq.
  replace (Bx - By + 2) with (Bx - By + 1 + 1) by lia.
  assert (Hqnn : 0 <= q).
  { rewrite Hq. apply Z.div_pos; lia. }
  apply binary_round_aux_mag; [exact Hqnn | | exact HB].
  destruct (Z.eq_dec q 0) as [-> | Hqnz].
  - cbn [Zdigits2]. subst e'.
    assert (fexp prec emax (d1 + ex - (d2 + ey)) <= Bx - By + 1)
      by (apply fexp_le; subst By; lia).
    lia.
  - assert (Zdigits2 q <= Zdigits2 m' - Zdigits2 (Z.pos my) + 1).
    { rewrite Hq. apply Zdigits2_quot; [lia | rewrite <- Hq; lia]. }
    cbn [Zdigits2] in *. subst s By d1 d2. lia.
Qed.

Lemma SFtrunc_mag (x : spec_float) (B : Z) :
  0 <= B -> mag_below B x = true ->
  exists z, SFtrunc x = Some z /\ - 2 ^ B < z < 2 ^ B.
Proof.
  intros HB Hx.
  assert (Hpow : 0 < 2 ^ B) by (apply Z.pow_pos_nonneg; lia).
  destruct x as [sx | sx | | sx mx ex]; try discriminate.
  - exists 0. split; [reflexivity | lia].
  - cbn [mag_below SFtrunc] in *. apply Z.leb_le in Hx.
    eexists. split; [reflexivity |].
    assert (Hm : Z.pos mx < 2 ^ Z.pos (digits2_pos mx)).
    { pose proof (Zdigits2_log2 (Z.pos mx)) as Hl. cbn [Zdigits2] in Hl.
      rewrite Hl by lia. apply Z.log2_spec. lia. }
    assert (Hmag : 0 <= Z.shiftl (Z.pos mx) ex < 2 ^ B).
    { destruct (Z.le_gt_cases 0 ex) as [Hpos | Hneg].
      - rewrite Z.shiftl_mul_pow2 by exact Hpos. split.
        + apply Z.mul_nonneg_nonneg; [lia | apply Z.pow_nonneg; lia].
        + apply Z.lt_le_trans with (2 ^ Z.pos (digits2_pos mx) * 2 ^ ex).
          * apply Z.mul_lt_mono_pos_r; [apply Z.pow_pos_nonneg; lia | exact Hm].
          * rewrite <- Z.pow_add_r by lia. apply Z.pow_le_mono_r; lia.
      - rewrite Z.shiftl_div_pow2 by lia. split.
        + apply Z.div_pos; [lia | apply Z.pow_pos_nonneg; lia].
        + apply Z.div_lt_upper_bound; [apply Z.pow_pos_nonneg; lia |].
          rewrite <- Z.pow_add_r by lia.
          apply Z.lt_le_trans with (1 := Hm). apply Z.pow_le_mono_r; lia. }
    destruct sx; cbn [cond_Zopp]; lia.
Qed.

End Magnitude.

(** ** Conversion of volts to raw values *)

Section VoltConversion.
Context {platform : Platform}.

Lemma SFtrunc_quot (x : spec_float) (z : Z) :
  SFtrunc x = Some z -> z = Z.quot (SFnum x) (SFden x).
Proof.
  destruct x as [s | s | | s m e]; cbn [SFtrunc SFnum SFden];
    intros [= <-]; [reflexivity |].
  assert (Hcond : forall a b, 0 < b ->
            Z.quot (cond_Zopp s a) b = cond_Zopp s (Z.quot a b)).
  { intros a b Hb. destruct s; cbn [cond_Zopp]; [| reflexivity].
    apply Z.quot_opp_l. lia. }
  destruct (Z.le_gt_cases 0 e) as [Hpos | Hneg].
  - replace (Z.max e 0) with e by lia. replace (Z.max (- e) 0) with 0 by lia.
    rewrite Z.shiftl_mul_pow2 by exact Hpos.
    change (2 ^ 0) with 1. rewrite Z.quot_1_r. reflexivity.
  - replace (Z.max e 0) with 0 by lia. replace (Z.max (- e) 0) with (- e) by lia.
    rewrite Z.shiftl_div_pow2 by lia.
    change (2 ^ 0) with 1. rewrite Z.mul_1_r.
    assert (Hd : 0 < 2 ^ (- e)) by (apply Z.pow_pos_nonneg; lia).
    rewrite Hcond by exact Hd.
    rewrite Z.quot_div_nonneg by lia. reflexivity.
Qed.

Lemma float_to_int32_defined (x : spec_float) (z : Z) :
  SFtrunc x = Some z -> - 2 ^ 31 <= z < 2 ^ 31 -> float_to_int32 x = z.
Proof.
  intros Hx [Hlo Hhi]. unfold float_to_int32. rewrite Hx.
  replace (- 2 ^ 31 <=? z) with true by (symmetry; apply Z.leb_le; exact Hlo).
  replace (z <? 2 ^ 31) with true by (symmetry; apply Z.ltb_lt; exact Hhi).
  reflexivity.
Qed.

Lemma quot_floor_negative (a b : Z) :
  a < 0 -> 0 < b -> a mod b <> 0 -> Z.quot a b = a / b + 1.
Proof.
  intros Ha Hb Hmod.
  replace a with (- - a) at 1 by lia.
  rewrite Z.quot_opp_l, Z.quot_div_nonneg by lia.
  rewrite Z.div_opp_l_nz by (exact Hmod || lia). lia.
Qed.

(** A [float] between [-vMax] and [vMax] is below [2^(24 + E)] in
    magnitude, [E] being the exponent of [vMax]. *)
Lemma in_range_mag (v : float) (m0 : positive) (E : Z) :
  F32.valid v = true ->
  float_ge v (F32.opp (S754_finite false m0 E)) = true ->
  float_lt v (S754_finite false m0 E) = true ->
  mag_below (24 + E) v = true.
Proof.
  unfold F32.valid, float_ge, float_lt, SFltb, F32.opp.
  destruct v as [s | s | | s m e]; cbn [SFopp SFcompare negb valid_binary mag_below].
  - reflexivity.
  - destruct s; intros _ Hge Hlt; discriminate.
  - intros _ Hge; discriminate.
  - unfold bounded, canonical_mantissa, fexp, F32.prec, F32.emax.
    intros Hval Hge Hlt. apply andb_true_iff in Hval as [Hcan _].
    apply Z.eqb_eq in Hcan. apply Z.leb_le.
    assert (He : e <= E).
    { destruct s.
      - destruct (Z.compare_spec e E); [lia | lia | discriminate].
      - destruct (Z.compare_spec e E); [lia | lia | discriminate]. }
    lia.
Qed.

(** C7, amended: for a [float] with [-vMax <= voltValue < vMax] the
    binary32 quotient [voltValue * 2^13 / vMax] is finite and
    [getSignedRawFromVolt] returns its integral part, truncated toward
    zero.  That is the floor when the quotient is not negative, and one
    above the floor when it is negative and not integral. *)
Theorem getSignedRawFromVolt_in_range (voltValue : float) (gain : Z) :
  F32.valid voltValue = true ->
  gain = 0 \/ gain = 1 ->
  let vMax :=
    if gain =? 1 then F32.of_Z 5 else F32.of_double (F64.literal 125 100) in
  float_ge voltValue (F32.opp vMax) = true ->
  float_lt voltValue vMax = true ->
  let q := F32.div (F32.mul voltValue (F32.of_Z (2 ^ 13))) vMax in
  let raw := getSignedRawFromVolt voltValue gain in
  is_finite q = true /\
  raw = Z.quot (SFnum q) (SFden q) /\
  (0 <= SFnum q -> raw = SFnum q / SFden q) /\
  (SFnum q < 0 -> SFnum q mod SFden q <> 0 -> raw = SFnum q / SFden q + 1) /\
  - 2 ^ 17 < raw < 2 ^ 17.
Proof.
  intros Hval Hgain vMax Hge Hlt q raw.
  assert (HvMax : F32.of_double
                    (if negb (gain =? 0) then IDEAL_RANGE_DAC_HIGH
                     else IDEAL_RANGE_DAC_LOW) = vMax).
  { subst vMax. destruct Hgain as [-> | ->]; reflexivity. }
  assert (Hraw : raw = float_to_int32 q).
  { subst raw q. unfold getSignedRawFromVolt. rewrite HvMax.
    rewrite (float_lt_not_ge _ _ Hlt), (float_ge_not_lt _ _ Hge). reflexivity. }
  assert (Hq : mag_below 17 q = true).
  { subst q vMax. destruct Hgain as [-> | ->]; cbn [Z.eqb] in *.
    - change (F32.of_double (F64.literal 125 100))
        with (S754_finite false 10485760 (-23)) in *.
      pose proof (in_range_mag _ _ _ Hval Hge Hlt) as Hv.
      pose proof (SFmul_mag 24 128 ltac:(lia) voltValue (F32.of_Z (2 ^ 13))
                    (24 + -23) 14 Hv eq_refl) as Hp.
      apply (SFdiv_mag 24 128 ltac:(lia) _ false 10485760 (-23) (24 + -23 + 14 + 1)).
      + apply Hp. unfold SpecFloat.emin. lia.
      + unfold SpecFloat.emin. cbn [digits2_pos Pos.succ]. lia.
    - change (F32.of_Z 5) with (S754_finite false 10485760 (-21)) in *.
      pose proof (in_range_mag _ _ _ Hval Hge Hlt) as Hv.
      pose proof (SFmul_mag 24 128 ltac:(lia) voltValue (F32.of_Z (2 ^ 13))
                    (24 + -21) 14 Hv eq_refl) as Hp.
      apply (SFdiv_mag 24 128 ltac:(lia) _ false 10485760 (-21) (24 + -21 + 14 + 1)).
      + apply Hp. unfold SpecFloat.emin. lia.
      + unfold SpecFloat.emin. cbn [digits2_pos Pos.succ]. lia. }
  destruct (SFtrunc_mag q 17 ltac:(lia) Hq) as (z & Hz & Hzr).
  assert (Hrz : raw = z).
  { rewrite Hraw. apply float_to_int32_defined; [exact Hz | lia]. }
  pose proof (SFtrunc_quot q z Hz) as Hquot.
  assert (Hden : 0 < SFden q).
  { destruct q as [s | s | | s m e]; cbn [SFden];
      first [lia | apply Z.pow_pos_nonneg; lia]. }
  split; [| split; [| split; [| split]]].
  - destruct q; try discriminate; reflexivity.
  - congruence.
  - intros Hnn. rewrite Hrz, Hquot. apply Z.quot_div_nonneg; lia.
  - intros Hneg Hmod. rewrite Hrz, Hquot.
    apply quot_floor_negative; assumption.
  - rewrite Hrz. exact Hzr.
Qed.

End VoltConversion.

(** The claim of C7 as stated, with the floor, fails at [-1.0] volt and
    gain 1: the quotient is [-1638.4], the source returns [-1638], the
    floor is [-1639]. *)
Lemma getSignedRawFromVolt_not_floor :
  getSignedRawFromVolt (platform := Sim.sim_platform) (F32.of_Z (-1)) 1 = -1638 /\
  (-1 * 2 ^ 13) / 5 = -1639 /\
  ~ (forall (platform : Platform) (voltValue : float) (gain : Z),
        F32.valid voltValue = true ->
        gain = 0 \/ gain = 1 ->
        let vMax :=
          if gain =? 1 then F32.of_Z 5 else F32.of_double (F64.literal 125 100) in
        float_ge voltValue (F32.opp vMax) = true ->
        float_lt voltValue vMax = true ->
        let q := F32.div (F32.mul voltValue (F32.of_Z (2 ^ 13))) vMax in
        getSignedRawFromVolt voltValue gain = SFnum q / SFden q).
Proof.
  split; [reflexivity | split; [reflexivity |]].
  intros Hclaim.
  specialize (Hclaim Sim.sim_platform (F32.of_Z (-1)) 1 eq_refl
                     (or_intror eq_refl) eq_refl eq_refl).
  vm_compute in Hclaim. discriminate Hclaim.
Qed.

(** ** The theorems at concrete inputs, on the simulated base layer *)

Section Witnesses.
Import Sim.

Lemma readUserCalib_outcome_witness :
  (exists s',
      readUserCalib (sim_zmod loaded (sim_init 0 0 0)) = Returns 0 s' /\
      length (List.filter is_write (trace s')) = 8%nat) /\
  (exists s',
      readUserCalib (sim_zmod loaded (sim_init 0 0 2)) = Returns 0 s' /\
      List.filter is_write (trace s') = []).
Proof.
  split.
  - destruct (readUserCalib_outcome (base := sim_base) (sim_zmod loaded (sim_init 0 0 0))
                0 loaded (sim_init 0 0 0) eq_refl)
      as (writes & Hrun & Hok & _).
    + intros _. exists {| cal := unit_cal |}. split; reflexivity.
    + destruct (Hok eq_refl) as [_ Hw]. rewrite (Hw _ eq_refl) in Hrun.
      eexists. split; [exact Hrun | reflexivity].
  - destruct (readUserCalib_outcome (base := sim_base) (sim_zmod loaded (sim_init 0 0 2))
                2 loaded (sim_init 0 0 2) eq_refl)
      as (writes & Hrun & _ & Hfail).
    + intros Hcontra. discriminate Hcontra.
    + rewrite Hfail in Hrun by discriminate.
      eexists. split; [exact Hrun | reflexivity].
Defined.

Lemma setData_outcome_witness :
  setData 0 4096 16 (sim_zmod None (sim_init 1 0 0)) =
    Returns 1 {| calib := None;
                 hw := setTransferSize 64 (sim_init 1 0 0);
                 trace := [EvSetTransferSize 64; EvStartDMATransfer 4096 1] |} /\
  setData 3 4096 16 (sim_zmod None (sim_init 0 2 0)) =
    Returns 0 {| calib := None;
                 hw := poll_n 3 (setTransferSize 64 (sim_init 0 2 0));
                 trace := [EvSetTransferSize 64; EvStartDMATransfer 4096 0;
                           EvIsDMATransferComplete false;
                           EvIsDMATransferComplete false;
                           EvIsDMATransferComplete true] |}.
Proof.
  split.
  - apply (proj1 (proj2 (setData_outcome (base := sim_base) (platform := sim_platform) 4096 16 (sim_zmod None (sim_init 1 0 0))
                           1 (setTransferSize 64 (sim_init 1 0 0)) eq_refl))).
    discriminate.
  - apply (proj1 (proj2 (proj2
             (setData_outcome (base := sim_base) (platform := sim_platform) 4096 16 (sim_zmod None (sim_init 0 2 0))
                0 (setTransferSize 64 (sim_init 0 2 0)) eq_refl)))
             eq_refl 2%nat 3%nat eq_refl).
    lia.
Defined.

Lemma getSignedRawFromVolt_clamp_witness :
  getSignedRawFromVolt (F32.of_Z 7) 1 = 2 ^ 13 - 1 /\
  getSignedRawFromVolt (F32.of_Z (-2)) 0 = 2 ^ 13.
Proof.
  split.
  - apply (proj1 (getSignedRawFromVolt_clamp (platform := sim_platform) (F32.of_Z 7) 1
                    (or_intror eq_refl))).
    reflexivity.
  - apply (proj1 (proj2 (getSignedRawFromVolt_clamp (platform := sim_platform) (F32.of_Z (-2)) 0
                           (or_introl eq_refl)))).
    reflexivity.
Defined.

Lemma getSignedRawFromVolt_in_range_witness :
  getSignedRawFromVolt (F32.of_Z (-1)) 1 =
  Z.quot (SFnum (F32.div (F32.mul (F32.of_Z (-1)) (F32.of_Z (2 ^ 13)))
                         (F32.of_Z 5)))
         (SFden (F32.div (F32.mul (F32.of_Z (-1)) (F32.of_Z (2 ^ 13)))
                         (F32.of_Z 5))).
Proof.
  exact (proj1 (proj2 (getSignedRawFromVolt_in_range
                         (platform := sim_platform) (F32.of_Z (-1)) 1
                         eq_refl (or_intror eq_refl) eq_refl eq_refl))).
Defined.

Lemma setCalibValues_record_witness :
  setCalibValues 1 0 (F32.of_Z 2) (F32.of_Z 3) (sim_zmod None (sim_init 0 0 0))
    = Returns tt (sim_zmod None (sim_init 0 0 0)) /\
  exists c',
    setCalibValues 1 0 (F32.of_Z 2) (F32.of_Z 3)
                   (sim_zmod loaded (sim_init 0 0 0))
      = Returns tt (sim_zmod (Some c') (sim_init 0 0 0)) /\
    cal_get c' 1 0 0 = Some (F32.of_Z 2) /\
    cal_get c' 1 0 1 = Some (F32.of_Z 3).
Proof.
  split.
  - apply (proj1 (setCalibValues_record 1 0 (F32.of_Z 2) (F32.of_Z 3)
                    (sim_zmod None (sim_init 0 0 0)))).
    reflexivity.
  - destruct (proj2 (setCalibValues_record 1 0 (F32.of_Z 2) (F32.of_Z 3)
                       (sim_zmod loaded (sim_init 0 0 0)))
                {| cal := unit_cal |} eq_refl eq_refl)
      as (c' & Hrun & _ & HG & HA & _); [lia | lia |].
    exists c'. split; [exact Hrun | split; assumption].
Defined.

Lemma channel_nonzero_is_channel_1_witness :
  arrangeChannelData 2 0x1234 = arrangeChannelData 1 0x1234 /\
  setGain 2 1 (sim_zmod None (sim_init 0 0 0)) =
  setGain 1 1 (sim_zmod None (sim_init 0 0 0)).
Proof.
  destruct (channel_nonzero_is_channel_1 (base := sim_base) 2 0x1234 1
              (sim_zmod None (sim_init 0 0 0))) as (Hp & _ & Hg & _).
  - unfold in_uint8. lia.
  - discriminate.
  - split; assumption.
Defined.

End Witnesses.

(** * Further properties *)

(** ** Packing: which samples share a word *)

Section PackingMore.

Lemma shiftl_inj_nonneg (a b n : Z) :
  0 <= n -> Z.shiftl a n = Z.shiftl b n -> a = b.
Proof.
  intros Hn Heq. rewrite !Z.shiftl_mul_pow2 in Heq by exact Hn.
  apply Z.mul_cancel_r in Heq; [exact Heq |].
  apply Z.pow_nonzero; lia.
Qed.

Lemma mod14_of_mod16 (d : Z) : (d mod 2 ^ 16) mod 2 ^ 14 = d mod 2 ^ 14.
Proof. apply Z.mod_mod_divide. exists (2 ^ 2). reflexivity. Qed.

Lemma arrangeChannelData_same_iff (channel d d' : Z) :
  arrangeChannelData channel d = arrangeChannelData channel d' <->
  d mod 2 ^ 14 = d' mod 2 ^ 14.
Proof.
  rewrite !arrangeChannelData_shift, !mask14_mod. split.
  - apply shiftl_inj_nonneg. destruct (channel =? 0); lia.
  - intros ->. reflexivity.
Qed.

(** X1: the packing has no range check and keeps 14 bits: two signed
    samples are packed to the same word exactly when they agree modulo
    [2^14]; on the 14-bit signed range [-8192 .. 8191] the packing is
    therefore one-to-one. *)
Theorem arrangeSignedChannelData_same_iff (channel d d' : Z) :
  (arrangeSignedChannelData channel d = arrangeSignedChannelData channel d' <->
   d mod 2 ^ 14 = d' mod 2 ^ 14) /\
  (- 2 ^ 13 <= d < 2 ^ 13 -> - 2 ^ 13 <= d' < 2 ^ 13 ->
   arrangeSignedChannelData channel d = arrangeSignedChannelData channel d' ->
   d = d').
Proof.
  assert (Hiff : arrangeSignedChannelData channel d
                 = arrangeSignedChannelData channel d' <->
                 d mod 2 ^ 14 = d' mod 2 ^ 14).
  { unfold arrangeSignedChannelData. rewrite !uint16_uint32.
    rewrite arrangeChannelData_same_iff, !mod14_of_mod16. reflexivity. }
  split; [exact Hiff |].
  intros Hd Hd' Heq. apply Hiff in Heq.
  assert (Hshift : forall x, - 2 ^ 13 <= x < 2 ^ 13 ->
                     x = (x + 2 ^ 13) mod 2 ^ 14 - 2 ^ 13).
  { intros x Hx. rewrite Z.mod_small by lia. lia. }
  rewrite (Hshift d Hd), (Hshift d' Hd').
  rewrite <- (Zplus_mod_idemp_l d), <- (Zplus_mod_idemp_l d'), Heq.
  reflexivity.
Qed.

Lemma arrangeSignedChannelData_same_iff_witness :
  arrangeSignedChannelData 0 8192 = arrangeSignedChannelData 0 (-8192) /\
  (arrangeSignedChannelData 1 (-3) = arrangeSignedChannelData 1 (-3) -> -3 = -3).
Proof.
  split.
  - apply (proj1 (arrangeSignedChannelData_same_iff 0 8192 (-8192))).
    reflexivity.
  - apply (proj2 (arrangeSignedChannelData_same_iff 1 (-3) (-3))); lia.
Defined.

(** X2: the contribution of channel 0 and the contribution of any other
    channel have no bit in common, so combining them by [|], by [^] or by
    [+] gives the same word. *)
Theorem channel_words_disjoint (channel d0 d1 : Z) :
  channel <> 0 ->
  let w0 := arrangeChannelData 0 d0 in
  let w1 := arrangeChannelData channel d1 in
  Z.land w0 w1 = 0 /\ Z.lor w0 w1 = w0 + w1 /\ Z.lxor w0 w1 = w0 + w1.
Proof.
  intros Hne w0 w1.
  assert (Hland : Z.land w0 w1 = 0).
  { apply Z.bits_inj'. intros i Hi. subst w0 w1.
    rewrite Z.land_spec, !arrangeChannelData_testbit, Z.bits_0 by exact Hi.
    apply Z.eqb_neq in Hne. rewrite Hne. cbn [Z.eqb]. cbv zeta.
    destruct (Z.leb_spec 18 i), (Z.ltb_spec i (2 + 14)); cbn [andb];
      rewrite ?andb_false_r; try reflexivity; lia. }
  split; [exact Hland |].
  rewrite <- (Z.lxor_lor _ _ Hland), (Z.add_nocarry_lxor _ _ Hland).
  split; reflexivity.
Qed.

Lemma channel_words_disjoint_witness :
  Z.lor (arrangeChannelData 0 0x3FFF) (arrangeChannelData 1 0x3FFF)
  = arrangeChannelData 0 0x3FFF + arrangeChannelData 1 0x3FFF.
Proof.
  apply (channel_words_disjoint 1 0x3FFF 0x3FFF). discriminate.
Defined.

End PackingMore.

(** ** The device object: what the methods leave alone *)

Section DriverMore.
Context {HW : Type} {base : ZmodBase HW} {platform : Platform}.

Lemma wait_complete_frame (fuel : nat) :
  forall (s s' : zmod HW) (r : unit),
    wait_complete fuel s = Returns r s' ->
    calib s' = calib s /\
    exists polls,
      trace s' = trace s ++ polls ++ [EvIsDMATransferComplete true] /\
      forallb is_poll polls = true.
Proof.
  induction fuel as [| fuel IH]; intros s s' r Hrun; [discriminate Hrun |].
  cbn [wait_complete] in Hrun.
  unfold mbind, outcome_bind, call_isDMATransferComplete, log in Hrun.
  destruct (isDMATransferComplete (hw s)) as [done h'] eqn:Hpoll.
  cbn [calib hw trace] in Hrun. destruct done; cbn [negb] in Hrun.
  all: unfold mret, outcome_ret in Hrun.
  - assert (Hs : s' = {| calib := calib s; hw := h';
                          trace := trace s ++ [EvIsDMATransferComplete true] |})
      by congruence.
    subst s'. cbn [calib trace]. split; [reflexivity |].
    exists []. split; reflexivity.
  - apply IH in Hrun as (Hc & polls & Ht & Hp). cbn [calib trace] in Hc, Ht.
    split; [exact Hc |].
    exists (EvIsDMATransferComplete false :: polls). split.
    + rewrite Ht, <- app_assoc. reflexivity.
    + cbn [forallb is_poll]. exact Hp.
Qed.

Lemma wait_complete_defined (fuel : nat) :
  forall s : zmod HW, wait_complete fuel s <> Undefined.
Proof.
  induction fuel as [| fuel IH]; intros s; [discriminate |].
  cbn [wait_complete].
  unfold mbind, outcome_bind, call_isDMATransferComplete, log.
  destruct (isDMATransferComplete (hw s)) as [done h'].
  destruct done; cbn [negb]; [discriminate | apply IH].
Qed.

(** X3: whatever the DMA engine does, [setData] has defined behaviour,
    and when it returns: the status is 0 or [ERR_FAIL] (the start status
    itself is never passed on), the calibration area is untouched, the
    only base-layer calls made are the size, the start and polls (no
    register write, no flash read), and a status different from
    [ERR_FAIL] is returned only after a poll answered "complete". *)
Theorem setData_frame (fuel : nat) (buffer length : Z) (s : zmod HW) :
  setData fuel buffer length s <> Undefined /\
  forall (r : Z) (s' : zmod HW),
    setData fuel buffer length s = Returns r s' ->
    (r = 0 \/ r = uint8 ERR_FAIL) /\
    calib s' = calib s /\
    exists st polls,
      trace s' = trace s
                   ++ EvSetTransferSize (size_t size_bits (length * 4))
                   :: EvStartDMATransfer buffer st :: polls /\
      forallb is_poll polls = true /\
      (r <> uint8 ERR_FAIL ->
       exists before, polls = before ++ [EvIsDMATransferComplete true]).
Proof.
  destruct (startDMATransfer buffer
              (setTransferSize (size_t size_bits (length * 4)) (hw s)))
    as [st h] eqn:Hstart.
  set (s1 := {| calib := calib s; hw := h;
                trace := trace s
                           ++ [EvSetTransferSize (size_t size_bits (length * 4));
                               EvStartDMATransfer buffer st] |}).
  assert (Hpre :
    setData fuel buffer length s =
    (if negb (uint8 st =? 0) then mret (uint8 ERR_FAIL)
     else wait_complete fuel ;; mret (uint8 st)) s1).
  { unfold setData, mbind, outcome_bind at 1 2,
      call_setTransferSize, call_startDMATransfer, log.
    cbn [calib hw trace]. rewrite Hstart. cbn [calib hw trace].
    rewrite <- app_assoc. reflexivity. }
  rewrite Hpre. clear Hpre.
  destruct (Z.eqb_spec (uint8 st) 0) as [Hz | Hnz]; cbn [negb].
  - unfold mbind, outcome_bind, mret, outcome_ret.
    pose proof (wait_complete_defined fuel s1) as Hdef.
    pose proof (wait_complete_frame fuel s1) as Hframe.
    destruct (wait_complete fuel s1) as [u s2 | |].
    + split; [discriminate |]. intros r s' [= <- <-].
      destruct (Hframe s2 u eq_refl) as (Hc & polls & Ht & Hp).
      cbn [calib trace] in Hc, Ht.
      split; [left; exact Hz | split; [exact Hc |]].
      exists st, (polls ++ [EvIsDMATransferComplete true]).
      split; [| split].
      * rewrite Ht. unfold s1. cbn [trace]. rewrite <- app_assoc. reflexivity.
      * rewrite forallb_app, Hp. reflexivity.
      * intros _. exists polls. reflexivity.
    + contradiction.
    + split; [discriminate |]. intros r s' [=].
  - unfold mret, outcome_ret. split; [discriminate |].
    intros r s' [= <- <-]. cbn [calib trace].
    split; [right; reflexivity | split; [reflexivity |]].
    exists st, []. split; [reflexivity | split; [reflexivity |]].
    intros Hcontra. contradiction.
Qed.

End DriverMore.

(** ** Byte counts *)

Section ByteCounts.
Context {HW : Type} {base : ZmodBase HW} {buffers : ZmodBuffers HW}
        {platform : Platform}.

Lemma size_t_words_wrap (length k : Z) :
  2 <= size_bits ->
  size_t size_bits ((length + k * 2 ^ (size_bits - 2)) * 4)
  = size_t size_bits (length * 4).
Proof.
  intros Hb. unfold size_t.
  replace ((length + k * 2 ^ (size_bits - 2)) * 4)
    with (length * 4 + k * 2 ^ size_bits).
  - apply Z.mod_add. apply Z.pow_nonzero; lia.
  - replace size_bits with (size_bits - 2 + 2) at 1 by lia.
    rewrite Z.pow_add_r by lia. change (2 ^ 2) with 4. ring.
Qed.

(** X4: the byte count [length * sizeof(uint32_t)] is computed in
    [size_t] without a check.  Buffer allocation, release and transfer
    all use that same count: it is [length * 4] for a [length] below
    [2^(size_bits - 2)], and lengths that differ by a multiple of
    [2^(size_bits - 2)] are not told apart by any of the three. *)
Theorem byte_count_wraps (fuel : nat) (buffer length k : Z) (s : zmod HW) :
  2 <= size_bits ->
  (0 <= length < 2 ^ (size_bits - 2) ->
   size_t size_bits (length * 4) = length * 4) /\
  allocChannelsBuffer (length + k * 2 ^ (size_bits - 2)) s
  = allocChannelsBuffer length s /\
  freeChannelsBuffer buffer (length + k * 2 ^ (size_bits - 2)) s
  = freeChannelsBuffer buffer length s /\
  setData fuel buffer (length + k * 2 ^ (size_bits - 2)) s
  = setData fuel buffer length s.
Proof.
  intros Hb. split; [| split; [| split]].
  - intros Hl. unfold size_t. apply Z.mod_small.
    assert (Hpow : 2 ^ size_bits = 2 ^ (size_bits - 2) * 4).
    { replace size_bits with (size_bits - 2 + 2) at 1 by lia.
      rewrite Z.pow_add_r by lia. reflexivity. }
    lia.
  - unfold allocChannelsBuffer. rewrite size_t_words_wrap by exact Hb.
    reflexivity.
  - unfold freeChannelsBuffer. rewrite size_t_words_wrap by exact Hb.
    reflexivity.
  - unfold setData. rewrite size_t_words_wrap by exact Hb. reflexivity.
Qed.

End ByteCounts.

(** ** Calibration area: how stores compose *)

Section CalibMore.
Context {HW : Type} {base : ZmodBase HW} {platform : Platform}.

Lemma cal_index_in_range (i j k : Z) :
  0 <= i < 2 -> 0 <= j < 2 -> 0 <= k < 2 ->
  cal_index i j k = Some (Z.to_nat (i * 4 + j * 2 + k)).
Proof. intros Hi Hj Hk. apply cal_index_Some. split; [lia | reflexivity]. Qed.

(** The state [setCalibValues] leaves behind, with a record in place. *)
Lemma setCalibValues_run (channel gain : Z) (valG valA : float)
      (s : zmod HW) (c : CALIBECLYPSEDAC) :
  calib s = Some c -> calib_wf c ->
  0 <= channel < 2 -> 0 <= gain < 2 ->
  setCalibValues channel gain valG valA s =
  Returns tt
    {| calib := Some {| cal := <[Z.to_nat (channel * 4 + gain * 2 + 1) := valA]>
                                 (<[Z.to_nat (channel * 4 + gain * 2 + 0) := valG]>
                                    (cal c)) |};
       hw := hw s; trace := trace s |}.
Proof.
  intros Hc Hwf Hch Hg.
  pose proof (cal_index_in_range channel gain 0 Hch Hg ltac:(lia)) as Hn0.
  pose proof (cal_index_in_range channel gain 1 Hch Hg ltac:(lia)) as Hn1.
  set (c1 := {| cal := <[Z.to_nat (channel * 4 + gain * 2 + 0) := valG]> (cal c) |}).
  assert (Hwf1 : calib_wf c1).
  { unfold calib_wf, c1. cbn [cal]. rewrite length_insert. exact Hwf. }
  unfold setCalibValues, mbind, outcome_bind, get_calib, write_cal.
  cbv beta iota. rewrite Hc. cbv beta iota. rewrite Hc.
  rewrite (cal_set_Some c _ _ _ _ _ Hwf Hn0). cbn [calib hw trace].
  fold c1. rewrite (cal_set_Some c1 _ _ _ _ _ Hwf1 Hn1). reflexivity.
Qed.

(** X5: stores to the calibration area compose like assignments: a
    second [setCalibValues] at the same [channel], [gain] replaces the
    first, and stores at different places give the same record in either
    order. *)
Theorem setCalibValues_compose (ch g ch' g' : Z) (a b a' b' : float)
        (s : zmod HW) (c : CALIBECLYPSEDAC) :
  calib s = Some c -> calib_wf c ->
  0 <= ch < 2 -> 0 <= g < 2 -> 0 <= ch' < 2 -> 0 <= g' < 2 ->
  (setCalibValues ch g a b ;; setCalibValues ch g a' b') s
  = setCalibValues ch g a' b' s /\
  (ch <> ch' \/ g <> g' ->
   (setCalibValues ch g a b ;; setCalibValues ch' g' a' b') s
   = (setCalibValues ch' g' a' b' ;; setCalibValues ch g a b) s).
Proof.
  intros Hc Hwf Hch Hg Hch' Hg'.
  assert (Hstep : forall ch1 g1 x y ch2 g2 x' y',
     0 <= ch1 < 2 -> 0 <= g1 < 2 -> 0 <= ch2 < 2 -> 0 <= g2 < 2 ->
     (setCalibValues ch1 g1 x y ;; setCalibValues ch2 g2 x' y') s =
     Returns tt
       {| calib := Some {| cal :=
            <[Z.to_nat (ch2 * 4 + g2 * 2 + 1) := y']>
              (<[Z.to_nat (ch2 * 4 + g2 * 2 + 0) := x']>
                 (<[Z.to_nat (ch1 * 4 + g1 * 2 + 1) := y]>
                    (<[Z.to_nat (ch1 * 4 + g1 * 2 + 0) := x]> (cal c)))) |};
          hw := hw s; trace := trace s |}).
  { intros ch1 g1 x y ch2 g2 x' y' H1 H2 H3 H4.
    erewrite bind_returns by (apply setCalibValues_run; eassumption).
    set (c1 := {| cal := <[Z.to_nat (ch1 * 4 + g1 * 2 + 1) := y]>
                           (<[Z.to_nat (ch1 * 4 + g1 * 2 + 0) := x]> (cal c)) |}).
    assert (Hwf1 : calib_wf c1).
    { unfold calib_wf, c1. cbn [cal]. rewrite !length_insert. exact Hwf. }
    rewrite (setCalibValues_run ch2 g2 x' y'
               {| calib := Some c1; hw := hw s; trace := trace s |}
               c1 eq_refl Hwf1 H3 H4).
    reflexivity. }
  split.
  - rewrite Hstep by assumption.
    rewrite (setCalibValues_run _ _ _ _ _ _ Hc Hwf Hch Hg).
    do 3 f_equal. f_equal.
    rewrite (list_insert_insert_ne _ (Z.to_nat (ch * 4 + g * 2 + 0))
               (Z.to_nat (ch * 4 + g * 2 + 1))) by lia.
    rewrite !list_insert_insert_eq. reflexivity.
  - intros Hdiff. rewrite !Hstep by assumption. do 3 f_equal. f_equal.
    set (l := cal c).
    rewrite (list_insert_insert_ne _ (Z.to_nat (ch' * 4 + g' * 2 + 0))
               (Z.to_nat (ch * 4 + g * 2 + 1))) by lia.
    rewrite (list_insert_insert_ne l (Z.to_nat (ch' * 4 + g' * 2 + 0))
               (Z.to_nat (ch * 4 + g * 2 + 0))) by lia.
    rewrite (list_insert_insert_ne _ (Z.to_nat (ch' * 4 + g' * 2 + 1))
               (Z.to_nat (ch * 4 + g * 2 + 1))) by lia.
    rewrite (list_insert_insert_ne _ (Z.to_nat (ch' * 4 + g' * 2 + 1))
               (Z.to_nat (ch * 4 + g * 2 + 0))) by lia.
    reflexivity.
Qed.

End CalibMore.

(** ** Register control and the calibration area *)

Section ControlMore.
Context {HW : Type} {base : ZmodBase HW} {platform : Platform}.

Lemma writeRegFld_setCalibValues_commute (f : regfld) (v : Z)
      (channel gain : Z) (valG valA : float) (s : zmod HW) :
  (call_writeRegFld f v ;; setCalibValues channel gain valG valA) s
  = (setCalibValues channel gain valG valA ;; call_writeRegFld f v) s.
Proof.
  unfold setCalibValues, call_writeRegFld, mbind, outcome_bind, get_calib,
    write_cal, log, mret, outcome_ret.
  cbn [calib hw trace].
  destruct (calib s) as [c |] eqn:Hc; cbn [calib hw trace]; rewrite ?Hc;
    [| reflexivity].
  destruct (cal_set c channel gain 0 valG) as [c1 |]; [| reflexivity].
  cbn [calib hw trace].
  destruct (cal_set c1 channel gain 1 valA) as [c2 |]; reflexivity.
Qed.

(** X6: the register-only methods ([resetOutputCounter], [start],
    [stop], [setOutputSampleFrequencyDivider], [setGain]) neither read
    nor change the calibration area: run before or after
    [setCalibValues], each gives the same outcome, also when the store
    has no defined behaviour. *)
Theorem control_commutes_with_setCalibValues
        (val ch gn : Z) (op : M (zmod HW) unit)
        (channel gain : Z) (valG valA : float) (s : zmod HW) :
  In op [resetOutputCounter; start; stop;
         setOutputSampleFrequencyDivider val; setGain ch gn] ->
  (op ;; setCalibValues channel gain valG valA) s
  = (setCalibValues channel gain valG valA ;; op) s.
Proof.
  intros [<- | [<- | [<- | [<- | [<- | []]]]]];
    try apply writeRegFld_setCalibValues_commute.
  unfold setGain. destruct (negb (ch =? 0));
    apply writeRegFld_setCalibValues_commute.
Qed.

(** X7: [readUserCalib] reads through [calib] without a test of its
    own: should the base layer report success with no calibration area
    in place, the call has no defined behaviour (where [setCalibValues]
    returns untouched). *)
Theorem readUserCalib_null_calib (s : zmod HW) (h' : HW) :
  ZMOD_readUserCalib (calib s) (hw s) = (ERR_SUCCESS, None, h') ->
  readUserCalib s = Undefined /\
  forall channel gain valG valA,
    setCalibValues channel gain valG valA
      {| calib := None; hw := h'; trace := trace s |}
    = Returns tt {| calib := None; hw := h'; trace := trace s |}.
Proof.
  intros Hbase. split; [| reflexivity].
  unfold readUserCalib, mbind, outcome_bind at 1 2, call_ZMOD_readUserCalib.
  rewrite Hbase. cbv beta iota. rewrite Z.eqb_refl. reflexivity.
Qed.

End ControlMore.

(** ** Calibration arithmetic: edge inputs *)

Section ArithmeticMore.
Context {platform : Platform}.

(** X8: the three conversions test [gain] for zero only: any non-zero
    gain selects the HIGH range constants, exactly like gain 1. *)
Theorem gain_nonzero_is_high (gain : Z) (cg ca v : float) :
  gain <> 0 ->
  computeCoefMult cg gain = computeCoefMult cg 1 /\
  computeCoefAdd ca cg gain = computeCoefAdd ca cg 1 /\
  getSignedRawFromVolt v gain = getSignedRawFromVolt v 1.
Proof.
  intros Hne. apply Z.eqb_neq in Hne.
  unfold computeCoefMult, computeCoefAdd, getSignedRawFromVolt.
  rewrite Hne. repeat split.
Qed.

(** X9: a zero additive calibration gives a zero additive coefficient,
    whatever the gain calibration, as long as the denominator
    [realRange * (1 + cg)] the source computes is a number other than
    zero. *)
Theorem computeCoefAdd_zero (s : bool) (cg : float) (gain : Z) :
  is_nonzero_number
    (F64.mul (if negb (gain =? 0) then REAL_RANGE_DAC_HIGH
              else REAL_RANGE_DAC_LOW)
             (F64.of_float (F32.add (F32.of_Z 1) cg))) = true ->
  computeCoefAdd (S754_zero s) cg gain = 0.
Proof.
  unfold computeCoefAdd.
  set (D := F64.mul _ _). intros HD.
  change (F32.mul (F32.opp (S754_zero s)) (F32.of_Z (uint32 (Z.shiftl 1 17))))
    with (S754_zero (xorb (negb s) false)).
  cbn [F64.of_float].
  destruct D as [sd | sd | | sd md ed]; try discriminate; reflexivity.
Qed.

End ArithmeticMore.

(** ** Sign symmetry of the binary32 operations *)

Section SignSymmetry.
Variables prec emax : Z.

Lemma binary_round_aux_opp (s : bool) (m e : Z) (l : location) :
  binary_round_aux prec emax (negb s) m e l
  = SFopp (binary_round_aux prec emax s m e l).
Proof.
  unfold binary_round_aux.
  destruct (shr_fexp prec emax m e l) as [mrs1 e1].
  destruct (shr_fexp prec emax _ e1 loc_Exact) as [mrs2 e2].
  destruct (shr_m mrs2) as [| m2 | m2]; try reflexivity.
  destruct (e2 <=? emax - prec); reflexivity.
Qed.

Lemma xorb_negb_l (a b : bool) : xorb (negb a) b = negb (xorb a b).
Proof. destruct a, b; reflexivity. Qed.

Lemma SFmul_opp_l (x y : spec_float) :
  SFmul prec emax (SFopp x) y = SFopp (SFmul prec emax x y).
Proof.
  destruct x as [sx | sx | | sx mx ex], y as [sy | sy | | sy my ey];
    cbn [SFopp SFmul]; rewrite ?xorb_negb_l; try reflexivity.
  apply binary_round_aux_opp.
Qed.

Lemma SFdiv_opp_l (x y : spec_float) :
  SFdiv prec emax (SFopp x) y = SFopp (SFdiv prec emax x y).
Proof.
  destruct x as [sx | sx | | sx mx ex], y as [sy | sy | | sy my ey];
    cbn [SFopp SFdiv]; rewrite ?xorb_negb_l; try reflexivity.
  destruct (SFdiv_core_binary prec emax (Z.pos mx) ex (Z.pos my) ey)
    as [[mz ez] lz].
  apply binary_round_aux_opp.
Qed.

End SignSymmetry.

Section Comparison.

Lemma SFopp_involutive (x : spec_float) : SFopp (SFopp x) = x.
Proof. destruct x as [s | s | | s m e]; cbn; rewrite ?negb_involutive; reflexivity. Qed.

Lemma SFcompare_antisym (a b : spec_float) :
  SFcompare b a = option_map CompOpp (SFcompare a b).
Proof.
  destruct a as [sa | sa | | sa ma ea], b as [sb | sb | | sb mb eb];
    cbn [SFcompare option_map]; try reflexivity;
    try (destruct sa; reflexivity); try (destruct sb; reflexivity);
    try (destruct sa, sb; reflexivity).
  assert (Hm : Pos.compare_cont Eq mb ma = CompOpp (Pos.compare_cont Eq ma mb))
    by (symmetry; apply (Pos.compare_cont_antisym ma mb Eq)).
  f_equal. rewrite (Z.compare_antisym ea eb), Hm.
  destruct sa, sb, (ea ?= eb), (Pos.compare_cont Eq ma mb); reflexivity.
Qed.

Lemma SFcompare_opp (a b : spec_float) :
  SFcompare (SFopp a) (SFopp b) = SFcompare b a.
Proof.
  destruct a as [sa | sa | | sa ma ea], b as [sb | sb | | sb mb eb];
    cbn [SFcompare SFopp]; try reflexivity;
    try (destruct sa; reflexivity); try (destruct sb; reflexivity);
    try (destruct sa, sb; reflexivity).
  assert (Hm : Pos.compare_cont Eq mb ma = CompOpp (Pos.compare_cont Eq ma mb))
    by (symmetry; apply (Pos.compare_cont_antisym ma mb Eq)).
  f_equal. rewrite (Z.compare_antisym ea eb), Hm.
  destruct sa, sb, (ea ?= eb), (Pos.compare_cont Eq ma mb); reflexivity.
Qed.

Lemma SFtrunc_opp (x : spec_float) :
  SFtrunc (SFopp x) = option_map Z.opp (SFtrunc x).
Proof.
  destruct x as [s | s | | s m e]; cbn [SFopp SFtrunc option_map];
    try reflexivity.
  destruct s; cbn [negb cond_Zopp]; rewrite ?Z.opp_involutive; reflexivity.
Qed.

Lemma valid_opp (v : float) : F32.valid (F32.opp v) = F32.valid v.
Proof. destruct v; reflexivity. Qed.

End Comparison.

(** ** The value of rounded results *)

Section RoundedValue.
Variables prec emax : Z.
Hypothesis prec_pos : 0 < prec.

(** Rounding moves a mantissa by less than one unit of the exponent
    [a] the first alignment selects. *)
Lemma binary_round_aux_value (sx : bool) (mx ex : Z) (lx : location)
      (s : bool) (m : positive) (e : Z) :
  0 <= mx ->
  binary_round_aux prec emax sx mx ex lx = S754_finite s m e ->
  let a := Z.max ex (fexp prec emax (Zdigits2 mx + ex)) in
  s = sx /\ a <= e /\ Z.pos m * 2 ^ (e - ex) <= mx + 2 ^ (a - ex).
Proof.
  intros Hmx Hres a. unfold binary_round_aux in Hres.
  destruct (shr_fexp_m prec emax mx ex lx Hmx) as [He1 Hm1].
  destruct (shr_fexp prec emax mx ex lx) as [mrs1 e1].
  cbn [fst snd] in He1, Hm1. fold a in He1, Hm1. subst e1.
  set (m1 := shr_m mrs1) in *.
  pose proof (round_nearest_even_bounds m1 (loc_of_shr_record mrs1)) as Hrnd.
  set (m1' := round_nearest_even m1 (loc_of_shr_record mrs1)) in *.
  assert (Hpa : 0 < 2 ^ (a - ex)) by (apply Z.pow_pos_nonneg; lia).
  assert (Hm1nn : 0 <= m1).
  { rewrite Hm1. apply Z.div_pos; lia. }
  assert (Hm1le : m1 * 2 ^ (a - ex) <= mx).
  { rewrite Hm1, Z.mul_comm. apply Z.mul_div_le. exact Hpa. }
  assert (Hm1'nn : 0 <= m1') by lia.
  destruct (shr_fexp_m prec emax m1' a loc_Exact Hm1'nn) as [He2 Hm2].
  destruct (shr_fexp prec emax m1' a loc_Exact) as [mrs2 e2].
  cbn [fst snd] in He2, Hm2. rewrite <- He2 in Hm2.
  assert (Hae2 : a <= e2) by lia.
  destruct (shr_m mrs2) as [| m2 | m2] eqn:Hm2v; try discriminate Hres.
  destruct (e2 <=? emax - prec); [| discriminate Hres].
  injection Hres as <- <- <-.
  split; [reflexivity | split; [exact Hae2 |]].
  assert (Hp2 : 0 < 2 ^ (e2 - a)) by (apply Z.pow_pos_nonneg; lia).
  assert (Hm2le : Z.pos m2 * 2 ^ (e2 - a) <= m1').
  { rewrite Hm2, Z.mul_comm. apply Z.mul_div_le. exact Hp2. }
  replace (e2 - ex) with ((e2 - a) + (a - ex)) by lia.
  rewrite Z.pow_add_r by lia.
  apply Z.le_trans with (m1' * 2 ^ (a - ex)).
  - rewrite Z.mul_assoc. apply Z.mul_le_mono_nonneg_r; lia.
  - apply Z.le_trans with ((m1 + 1) * 2 ^ (a - ex)).
    + apply Z.mul_le_mono_nonneg_r; lia.
    + lia.
Qed.

(** Shifting out zero bits is exact. *)
Lemma shr_1_even (k : Z) :
  0 <= k ->
  shr_1 {| shr_m := 2 * k; shr_r := false; shr_s := false |}
  = {| shr_m := k; shr_r := false; shr_s := false |}.
Proof. destruct k as [| p | p]; [reflexivity | reflexivity | lia]. Qed.

Lemma iter_shr_1_exact (p : positive) :
  forall k : Z,
    0 <= k ->
    SpecFloat.iter_pos shr_1 p
      {| shr_m := 2 ^ Z.pos p * k; shr_r := false; shr_s := false |}
    = {| shr_m := k; shr_r := false; shr_s := false |}.
Proof.
  assert (Hnn : forall x k, 0 <= x -> 0 <= k -> 0 <= 2 ^ x * k).
  { intros x k Hx Hk. apply Z.mul_nonneg_nonneg; [apply Z.pow_nonneg; lia | exact Hk]. }
  induction p as [p IH | p IH |]; intros k Hk; cbn [SpecFloat.iter_pos].
  - replace (2 ^ Z.pos p~1 * k) with (2 * (2 ^ Z.pos p * (2 ^ Z.pos p * k))).
    + rewrite shr_1_even by (apply Hnn; [lia | apply Hnn; lia]).
      rewrite IH by (apply Hnn; lia). apply IH. exact Hk.
    + assert (Hpow : 2 ^ Z.pos p~1 = 2 * (2 ^ Z.pos p * 2 ^ Z.pos p))
        by (symmetry; rewrite Pos2Z.inj_xI; apply pow2_double_succ; lia).
      rewrite Hpow. ring.
  - replace (2 ^ Z.pos p~0 * k) with (2 ^ Z.pos p * (2 ^ Z.pos p * k)).
    + rewrite IH by (apply Hnn; lia). apply IH. exact Hk.
    + assert (Hpow : 2 ^ Z.pos p~0 = 2 ^ Z.pos p * 2 ^ Z.pos p)
        by (symmetry; rewrite Pos2Z.inj_xO; apply pow2_double; lia).
      rewrite Hpow. ring.
  - change (2 ^ 1) with 2. apply shr_1_even. exact Hk.
Qed.

End RoundedValue.

(** ** The raw value of an in-range voltage *)

Section RawRange.
Context {platform : Platform}.

(** Scaling a normal [float] by [2^13] is exact. *)
Lemma mul_8192_exact (s : bool) (m : positive) (e : Z) :
  digits2_pos m = 24%positive -> -149 <= e -> e + 13 <= 104 ->
  F32.mul (S754_finite s m e) (F32.of_Z (2 ^ 13)) = S754_finite s m (e + 13).
Proof.
  intros Hd Hlo Hhi.
  change (F32.of_Z (2 ^ 13)) with (S754_finite false 8388608 (-10)).
  unfold F32.mul, F32.prec, F32.emax. cbn [SFmul].
  assert (Hmant : Z.pos (m * 8388608) = 2 ^ 23 * Z.pos m).
  { rewrite Pos2Z.inj_mul. change (Z.pos 8388608) with (2 ^ 23). ring. }
  assert (Hdig : Zdigits2 (Z.pos m) = 24) by (cbn [Zdigits2]; rewrite Hd; reflexivity).
  assert (Hdigp : Zdigits2 (Z.pos (m * 8388608)) = 47).
  { rewrite Zdigits2_log2 by lia. rewrite Zdigits2_log2 in Hdig by lia.
    rewrite Hmant, Z.mul_comm, Z.log2_mul_pow2 by lia. lia. }
  assert (Hfirst : shr_fexp 24 128 (Z.pos (m * 8388608)) (e + -10) loc_Exact
                   = ({| shr_m := Z.pos m; shr_r := false; shr_s := false |},
                      e + 13)).
  { unfold shr_fexp, shr. rewrite Hdigp.
    replace (fexp 24 128 (47 + (e + -10)) - (e + -10)) with 23
      by (unfold fexp, SpecFloat.emin; lia).
    cbn [shr_record_of_loc]. rewrite Hmant.
    rewrite (iter_shr_1_exact 23 (Z.pos m)) by lia.
    f_equal. lia. }
  assert (Hsecond : shr_fexp 24 128 (Z.pos m) (e + 13) loc_Exact
                    = ({| shr_m := Z.pos m; shr_r := false; shr_s := false |},
                       e + 13)).
  { unfold shr_fexp, shr. rewrite Hdig.
    replace (fexp 24 128 (24 + (e + 13)) - (e + 13)) with 0
      by (unfold fexp, SpecFloat.emin; lia).
    reflexivity. }
  unfold binary_round_aux. rewrite Hfirst.
  cbn [shr_m loc_of_shr_record round_nearest_even]. rewrite Hsecond.
  cbn [shr_m].
  replace (e + 13 <=? 128 - 24) with true by (symmetry; apply Z.leb_le; lia).
  rewrite xorb_false_r. reflexivity.
Qed.

(** The quotient of two normal [float]s before rounding. *)
Lemma SFdiv_normal (s : bool) (m : positive) (e1 : Z)
      (sy : bool) (my : positive) (ey : Z) :
  digits2_pos m = 24%positive -> digits2_pos my = 24%positive ->
  -149 <= e1 - ey - 24 ->
  exists lz,
    F32.div (S754_finite s m e1) (S754_finite sy my ey)
    = binary_round_aux 24 128 (xorb s sy)
        (Z.pos m * 2 ^ 24 / Z.pos my) (e1 - ey - 24) lz.
Proof.
  intros Hd Hdy Hlo. unfold F32.div, F32.prec, F32.emax. cbn [SFdiv].
  unfold SFdiv_core_binary. cbn [Zdigits2]. rewrite Hd, Hdy.
  replace (Z.min (fexp 24 128 (24 + e1 - (24 + ey))) (e1 - ey))
    with (e1 - ey - 24) by (unfold fexp, SpecFloat.emin; lia).
  replace (e1 - ey - (e1 - ey - 24)) with 24 by lia.
  cbv iota. rewrite Z.shiftl_mul_pow2 by lia.
  assert (Hq : fst (Z.div_eucl (Z.pos m * 2 ^ 24) (Z.pos my))
               = Z.pos m * 2 ^ 24 / Z.pos my) by reflexivity.
  destruct (Z.div_eucl (Z.pos m * 2 ^ 24) (Z.pos my)) as [q r].
  cbn [fst] in Hq. subst q. eexists. reflexivity.
Qed.

Lemma Zdigits2_lt_pow2 (x n : Z) : 0 <= n -> 0 <= x < 2 ^ n -> Zdigits2 x <= n.
Proof.
  intros Hn [Hx Hlt]. destruct (Z.eq_dec x 0) as [-> | Hnz]; [exact Hn |].
  rewrite Zdigits2_log2 by lia.
  assert (Z.log2 x < n) by (apply Z.log2_lt_pow2; lia). lia.
Qed.

Lemma shiftl_below (mf ef e' k : Z) :
  0 <= mf -> e' <= ef -> e' <= 0 -> 0 <= k ->
  mf * 2 ^ (ef - e') < 2 ^ (k - e') -> Z.shiftl mf ef < 2 ^ k.
Proof.
  intros Hmf Hee He' Hk Hlt.
  destruct (Z.le_gt_cases 0 ef) as [Hpos | Hneg].
  - rewrite Z.shiftl_mul_pow2 by exact Hpos.
    replace (ef - e') with (ef + - e') in Hlt by lia.
    replace (k - e') with (k + - e') in Hlt by lia.
    rewrite !Z.pow_add_r, Z.mul_assoc in Hlt by lia.
    apply Z.mul_lt_mono_pos_r in Hlt; [exact Hlt |].
    apply Z.pow_pos_nonneg; lia.
  - rewrite Z.shiftl_div_pow2 by lia.
    apply Z.div_lt_upper_bound; [apply Z.pow_pos_nonneg; lia |].
    replace (k - e') with (- ef + k + (ef - e')) in Hlt by lia.
    rewrite (Z.pow_add_r 2 (- ef + k)), (Z.pow_add_r 2 (- ef)) in Hlt by lia.
    apply Z.mul_lt_mono_pos_r in Hlt; [exact Hlt |].
    apply Z.pow_pos_nonneg; lia.
Qed.

(** A normal [float] strictly inside the range: the quotient by
    [vMax = 1.25 * 2^(E + 23)] scaled by [2^13] stays below [2^13] after
    rounding. *)
Lemma quotient_below_8192 (s : bool) (m : positive) (e E : Z) :
  digits2_pos m = 24%positive -> -149 <= e -> e <= E -> E <= -21 ->
  (e = E -> Z.pos m < 10485760) ->
  exists z,
    SFtrunc (F32.div (F32.mul (S754_finite s m e) (F32.of_Z (2 ^ 13)))
                     (S754_finite false 10485760 E)) = Some z /\
    - 2 ^ 13 < z < 2 ^ 13.
Proof.
  intros Hd Hlo HeE HE Hm.
  rewrite mul_8192_exact by lia.
  destruct (SFdiv_normal s m (e + 13) false 10485760 E Hd eq_refl ltac:(lia))
    as [lz ->].
  set (q0 := Z.pos m * 2 ^ 24 / 10485760).
  set (e' := e + 13 - E - 24).
  assert (Hmlt : Z.pos m < 2 ^ 24).
  { pose proof (Zdigits2_log2 (Z.pos m) ltac:(lia)) as Hl.
    cbn [Zdigits2] in Hl. rewrite Hd in Hl.
    apply Z.log2_lt_pow2; lia. }
  assert (Hq0nn : 0 <= q0) by (subst q0; apply Z.div_pos; lia).
  assert (Hq0 : q0 + 2 < 2 ^ 25 /\ (e = E -> q0 + 1 < 2 ^ 24)).
  { subst q0. split.
    - assert (Z.pos m * 2 ^ 24 / 10485760 < 2 ^ 25 - 2); [| lia].
      apply Z.div_lt_upper_bound; lia.
    - intros He. specialize (Hm He).
      assert (Z.pos m * 2 ^ 24 / 10485760 < 2 ^ 24 - 1); [| lia].
      apply Z.div_lt_upper_bound; lia. }
  destruct Hq0 as [Hq25 Hq24].
  assert (Hdq : Zdigits2 q0 <= 25) by (apply Zdigits2_lt_pow2; lia).
  pose proof (binary_round_aux_mag 24 128 ltac:(lia) (xorb s false) q0 e' lz
                (25 + e') Hq0nn ltac:(lia)
                ltac:(unfold SpecFloat.emin; subst e'; lia)) as Hmag.
  destruct (binary_round_aux 24 128 (xorb s false) q0 e' lz)
    as [sq | sq | | sq mf ef] eqn:Hres; try discriminate Hmag.
  - exists 0. split; [reflexivity | lia].
  - destruct (binary_round_aux_value 24 128 _ _ _ _ _ _ _ Hq0nn Hres)
      as (_ & Hae & Hval).
    cbn [SFtrunc]. eexists. split; [reflexivity |].
    assert (Hlt : Z.shiftl (Z.pos mf) ef < 2 ^ 13).
    { assert (He'ef : e' <= ef) by lia.
      assert (He'0 : e' <= 0) by (subst e'; lia).
      apply (shiftl_below (Z.pos mf) ef e' 13 ltac:(lia) He'ef He'0 ltac:(lia)).
      eapply Z.le_lt_trans; [exact Hval |].
      destruct (Z.eq_dec e E) as [He | Hne].
      - specialize (Hq24 He).
        assert (Hd24 : Zdigits2 q0 <= 24) by (apply Zdigits2_lt_pow2; lia).
        replace (Z.max e' (fexp 24 128 (Zdigits2 q0 + e')) - e') with 0
          by (unfold fexp, SpecFloat.emin; subst e'; lia).
        replace (13 - e') with 24 by (subst e'; lia).
        change (2 ^ 0) with 1. lia.
      - assert (Hexp : Z.max e' (fexp 24 128 (Zdigits2 q0 + e')) - e' <= 1)
          by (unfold fexp, SpecFloat.emin; subst e'; lia).
        assert (Hexp0 : 0 <= Z.max e' (fexp 24 128 (Zdigits2 q0 + e')) - e')
          by lia.
        assert (Hp1 : 2 ^ (Z.max e' (fexp 24 128 (Zdigits2 q0 + e')) - e')
                      <= 2 ^ 1) by (apply Z.pow_le_mono_r; lia).
        assert (Hp2 : 2 ^ 25 <= 2 ^ (13 - e'))
          by (apply Z.pow_le_mono_r; subst e'; lia).
        change (2 ^ 1) with 2 in Hp1. lia. }
    assert (Hnn : 0 <= Z.shiftl (Z.pos mf) ef) by (apply Z.shiftl_nonneg; lia).
    destruct sq; cbn [cond_Zopp]; lia.
Qed.

Lemma valid_finite_form (s : bool) (m : positive) (e : Z) :
  F32.valid (S754_finite s m e) = true ->
  -149 <= e /\
  (digits2_pos m = 24%positive \/ Z.pos (digits2_pos m) + e <= -126).
Proof.
  unfold F32.valid, F32.prec, F32.emax. cbn [valid_binary].
  unfold bounded, canonical_mantissa, fexp, SpecFloat.emin.
  intros Hv. apply andb_true_iff in Hv as [Hcan _]. apply Z.eqb_eq in Hcan.
  split; [lia |].
  destruct (Z.eq_dec (Z.pos (digits2_pos m)) 24) as [Heq | Hne].
  - left. injection Heq as ->. reflexivity.
  - right. lia.
Qed.

Lemma in_range_form (s : bool) (m m0 : positive) (e E : Z) :
  float_ge (S754_finite s m e) (F32.opp (S754_finite false m0 E)) = true ->
  float_lt (S754_finite s m e) (S754_finite false m0 E) = true ->
  e <= E /\
  (e = E -> Z.pos m <= Z.pos m0 /\ (s = false -> Z.pos m < Z.pos m0)).
Proof.
  unfold float_ge, float_lt, SFltb, F32.opp. cbn [SFopp SFcompare negb].
  change (Pos.compare_cont Eq m m0) with (Pos.compare m m0).
  intros Hge Hlt.
  destruct s; destruct (Z.compare_spec e E) as [He | He | He];
    try discriminate; (split; [lia |]); intros HeE; try lia.
  - destruct (Pos.compare_spec m m0) as [Hm | Hm | Hm]; try discriminate;
      split; try discriminate; lia.
  - destruct (Pos.compare_spec m m0) as [Hm | Hm | Hm]; try discriminate.
    split; [lia | intros _; lia].
Qed.

Lemma mag_below_mono (B B' : Z) (x : spec_float) :
  B <= B' -> mag_below B x = true -> mag_below B' x = true.
Proof.
  intros HB. destruct x as [s | s | | s m e]; cbn [mag_below]; try tauto.
  intros H. apply Z.leb_le in H. apply Z.leb_le. lia.
Qed.

(** The integral part of the quotient, for every [float] in the range of
    [vMax = 1.25 * 2^(E + 23)]. *)
Lemma quotient_in_range (v : float) (E : Z) :
  E = -21 \/ E = -23 ->
  F32.valid v = true ->
  float_ge v (F32.opp (S754_finite false 10485760 E)) = true ->
  float_lt v (S754_finite false 10485760 E) = true ->
  exists z,
    SFtrunc (F32.div (F32.mul v (F32.of_Z (2 ^ 13)))
                     (S754_finite false 10485760 E)) = Some z /\
    - 2 ^ 13 <= z < 2 ^ 13 /\
    (z = - 2 ^ 13 -> v = F32.opp (S754_finite false 10485760 E)).
Proof.
  intros HE Hval Hge Hlt.
  destruct v as [s | s | | s m e].
  - exists 0. split; [reflexivity | split; [lia | intros [=]]].
  - destruct s; discriminate.
  - discriminate.
  - destruct (valid_finite_form _ _ _ Hval) as [Hlo Hform].
    destruct (in_range_form _ _ _ _ _ Hge Hlt) as [HeE Hm].
    destruct Hform as [Hd | Hsub].
    + destruct (Z.eq_dec e E) as [He | Hne];
        [destruct (Z.eq_dec (Z.pos m) 10485760) as [Hm0 | Hm0] |].
      * (* the lower end of the range itself *)
        injection Hm0 as ->. destruct (Hm He) as [_ Hs].
        destruct s; [| specialize (Hs eq_refl); lia].
        subst e. exists (- 2 ^ 13).
        destruct HE as [-> | ->]; (split; [reflexivity | split; [lia |]]);
          reflexivity.
      * destruct (quotient_below_8192 s m e E Hd Hlo HeE ltac:(lia))
          as (z & Hz & Hzr).
        { intros _. destruct (Hm He). lia. }
        exists z. split; [exact Hz | split; lia].
      * destruct (quotient_below_8192 s m e E Hd Hlo HeE ltac:(lia))
          as (z & Hz & Hzr).
        { intros Hcontra. contradiction. }
        exists z. split; [exact Hz | split; lia].
    + assert (Hv : mag_below (20 + E) (S754_finite s m e) = true).
      { cbn [mag_below]. apply Z.leb_le. lia. }
      pose proof (SFmul_mag 24 128 ltac:(lia) _ (F32.of_Z (2 ^ 13))
                    (20 + E) 14 Hv eq_refl
                    ltac:(unfold SpecFloat.emin; lia)) as Hp.
      pose proof (SFdiv_mag 24 128 ltac:(lia) _ false 10485760 E
                    (20 + E + 14 + 1) Hp) as Hq.
      cbn zeta in Hq. cbn [digits2_pos Pos.succ] in Hq.
      specialize (Hq ltac:(unfold SpecFloat.emin; lia)).
      apply (mag_below_mono _ 13) in Hq; [| lia].
      destruct (SFtrunc_mag _ 13 ltac:(lia) Hq) as (z & Hz & Hzr).
      exists z. split; [exact Hz | split; lia].
Qed.

End RawRange.

(** ** The raw value: range and symmetry *)

Section RawTheorems.
Context {platform : Platform}.

(** What the source computes once both comparisons have failed. *)
Lemma getSignedRawFromVolt_quotient (v : float) (gain : Z) (E : Z) :
  gain = 1 /\ E = -21 \/ gain = 0 /\ E = -23 ->
  float_ge v (S754_finite false 10485760 E) = false ->
  float_lt v (F32.opp (S754_finite false 10485760 E)) = false ->
  getSignedRawFromVolt v gain =
  float_to_int32 (F32.div (F32.mul v (F32.of_Z (2 ^ 13)))
                          (S754_finite false 10485760 E)).
Proof.
  intros [[-> ->] | [-> ->]] Hge Hlt; unfold getSignedRawFromVolt;
    cbn [Z.eqb negb].
  - change (F32.of_double IDEAL_RANGE_DAC_HIGH)
      with (S754_finite false 10485760 (-21)).
    rewrite Hge, Hlt. reflexivity.
  - change (F32.of_double IDEAL_RANGE_DAC_LOW)
      with (S754_finite false 10485760 (-23)).
    rewrite Hge, Hlt. reflexivity.
Qed.

Lemma gain_vMax (gain : Z) :
  gain = 0 \/ gain = 1 ->
  exists E,
    (gain = 1 /\ E = -21 \/ gain = 0 /\ E = -23) /\
    (if gain =? 1 then F32.of_Z 5 else F32.of_double (F64.literal 125 100))
    = S754_finite false 10485760 E.
Proof.
  intros [-> | ->]; [exists (-23) | exists (-21)]; split; auto.
Qed.

Lemma raw_in_range (v : float) (gain E : Z) :
  gain = 1 /\ E = -21 \/ gain = 0 /\ E = -23 ->
  F32.valid v = true ->
  float_ge v (F32.opp (S754_finite false 10485760 E)) = true ->
  float_lt v (S754_finite false 10485760 E) = true ->
  SFtrunc (F32.div (F32.mul v (F32.of_Z (2 ^ 13)))
                   (S754_finite false 10485760 E))
  = Some (getSignedRawFromVolt v gain) /\
  - 2 ^ 13 <= getSignedRawFromVolt v gain < 2 ^ 13 /\
  (getSignedRawFromVolt v gain = - 2 ^ 13 ->
   v = F32.opp (S754_finite false 10485760 E)).
Proof.
  intros HgE Hval Hge Hlt.
  assert (HE : E = -21 \/ E = -23) by (destruct HgE as [[_ ->] | [_ ->]]; auto).
  destruct (quotient_in_range v E HE Hval Hge Hlt) as (z & Hz & Hzr & Hmin).
  rewrite (getSignedRawFromVolt_quotient v gain E HgE
             (float_lt_not_ge _ _ Hlt) (float_ge_not_lt _ _ Hge)).
  rewrite (float_to_int32_defined _ z Hz) by lia.
  split; [exact Hz | split; [exact Hzr | exact Hmin]].
Qed.

(** X10: for every [float] with [-vMax <= voltValue < vMax] the raw
    value is a 14-bit signed code, [-8192 <= raw <= 8191], and the lowest
    code [-8192] is produced by [-vMax] only. *)
Theorem getSignedRawFromVolt_14bit (voltValue : float) (gain : Z) :
  F32.valid voltValue = true ->
  gain = 0 \/ gain = 1 ->
  let vMax :=
    if gain =? 1 then F32.of_Z 5 else F32.of_double (F64.literal 125 100) in
  float_ge voltValue (F32.opp vMax) = true ->
  float_lt voltValue vMax = true ->
  - 2 ^ 13 <= getSignedRawFromVolt voltValue gain <= 2 ^ 13 - 1 /\
  (getSignedRawFromVolt voltValue gain = - 2 ^ 13 <->
   voltValue = F32.opp vMax).
Proof.
  intros Hval Hgain vMax. destruct (gain_vMax gain Hgain) as (E & HgE & HvMax).
  subst vMax. rewrite HvMax. intros Hge Hlt.
  destruct (raw_in_range voltValue gain E HgE Hval Hge Hlt) as (_ & Hr & Hmin).
  split; [lia |]. split; [exact Hmin |].
  intros ->. destruct HgE as [[-> ->] | [-> ->]]; reflexivity.
Qed.

(** X11: strictly inside the range the conversion is odd:
    [-voltValue] gives the opposite raw value. *)
Theorem getSignedRawFromVolt_odd (voltValue : float) (gain : Z) :
  F32.valid voltValue = true ->
  gain = 0 \/ gain = 1 ->
  let vMax :=
    if gain =? 1 then F32.of_Z 5 else F32.of_double (F64.literal 125 100) in
  float_lt (F32.opp vMax) voltValue = true ->
  float_lt voltValue vMax = true ->
  getSignedRawFromVolt (F32.opp voltValue) gain
  = - getSignedRawFromVolt voltValue gain.
Proof.
  intros Hval Hgain vMax. destruct (gain_vMax gain Hgain) as (E & HgE & HvMax).
  subst vMax. rewrite HvMax. set (vMax := S754_finite false 10485760 E).
  intros Hlo Hhi.
  assert (Hlo' : SFcompare (F32.opp vMax) voltValue = Some Lt).
  { unfold float_lt, SFltb in Hlo.
    destruct (SFcompare (F32.opp vMax) voltValue) as [[ | | ] |];
      try discriminate; reflexivity. }
  assert (Hhi' : SFcompare voltValue vMax = Some Lt).
  { unfold float_lt, SFltb in Hhi.
    destruct (SFcompare voltValue vMax) as [[ | | ] |];
      try discriminate; reflexivity. }
  assert (Hge : float_ge voltValue (F32.opp vMax) = true).
  { unfold float_ge. rewrite (SFcompare_antisym (F32.opp vMax) voltValue), Hlo'.
    reflexivity. }
  assert (Hge' : float_ge (F32.opp voltValue) (F32.opp vMax) = true).
  { unfold float_ge, F32.opp. rewrite SFcompare_opp.
    rewrite (SFcompare_antisym voltValue vMax), Hhi'. reflexivity. }
  assert (Hlt' : float_lt (F32.opp voltValue) vMax = true).
  { unfold float_lt, SFltb, F32.opp.
    rewrite <- (SFopp_involutive vMax) at 1. rewrite SFcompare_opp.
    fold (F32.opp vMax). rewrite Hlo'. reflexivity. }
  destruct (raw_in_range voltValue gain E HgE Hval Hge Hhi) as (Hz & Hr & _).
  destruct (raw_in_range (F32.opp voltValue) gain E HgE
              ltac:(rewrite valid_opp; exact Hval) Hge' Hlt') as (Hz' & _ & _).
  unfold F32.opp, F32.mul, F32.div in Hz'.
  rewrite SFmul_opp_l, SFdiv_opp_l, SFtrunc_opp in Hz'.
  unfold F32.mul, F32.div in Hz. rewrite Hz in Hz'. cbn [option_map] in Hz'.
  injection Hz' as Hz'. symmetry. exact Hz'.
Qed.

Lemma SFcompare_total (a b : spec_float) :
  a <> S754_nan -> b <> S754_nan -> exists c, SFcompare a b = Some c.
Proof.
  intros Ha Hb.
  destruct a as [sa | sa | | sa ma ea], b as [sb | sb | | sb mb eb];
    try contradiction; cbn [SFcompare]; eexists; reflexivity.
Qed.

(** X12: for every [float] other than NaN the raw value lies in
    [-8192 .. 8192]; the value [8192], one above the 14-bit signed range,
    is returned exactly for inputs below [-vMax], and
    [arrangeSignedChannelData] packs it like the lowest code, the one of
    [-vMax]. *)
Theorem getSignedRawFromVolt_total_range (voltValue : float) (gain channel : Z) :
  F32.valid voltValue = true ->
  voltValue <> S754_nan ->
  gain = 0 \/ gain = 1 ->
  let vMax :=
    if gain =? 1 then F32.of_Z 5 else F32.of_double (F64.literal 125 100) in
  let raw := getSignedRawFromVolt voltValue gain in
  - 2 ^ 13 <= raw <= 2 ^ 13 /\
  (raw = 2 ^ 13 <-> float_lt voltValue (F32.opp vMax) = true) /\
  (float_lt voltValue (F32.opp vMax) = true ->
   arrangeSignedChannelData channel raw
   = arrangeSignedChannelData channel
       (getSignedRawFromVolt (F32.opp vMax) gain)).
Proof.
  intros Hval Hnan Hgain vMax raw.
  destruct (gain_vMax gain Hgain) as (E & HgE & HvMax).
  subst vMax. rewrite HvMax. set (vMax := S754_finite false 10485760 E).
  assert (HvMax' : F32.of_double
                     (if negb (gain =? 0) then IDEAL_RANGE_DAC_HIGH
                      else IDEAL_RANGE_DAC_LOW) = vMax).
  { subst vMax. destruct HgE as [[-> ->] | [-> ->]]; reflexivity. }
  assert (Hclamp : forall v,
            getSignedRawFromVolt v gain =
            if float_ge v vMax then 2 ^ 13 - 1
            else if float_lt v (F32.opp vMax) then 2 ^ 13
            else float_to_int32 (F32.div (F32.mul v (F32.of_Z (2 ^ 13))) vMax)).
  { intros v. unfold getSignedRawFromVolt. rewrite HvMax'. reflexivity. }
  assert (Hlow : getSignedRawFromVolt (F32.opp vMax) gain = - 2 ^ 13).
  { subst vMax. destruct HgE as [[-> ->] | [-> ->]]; reflexivity. }
  destruct (SFcompare_total voltValue vMax Hnan ltac:(discriminate)) as [c Hc].
  destruct (SFcompare_total voltValue (F32.opp vMax) Hnan ltac:(discriminate))
    as [c' Hc'].
  destruct (float_lt voltValue (F32.opp vMax)) eqn:Hlt.
  - (* below the range *)
    assert (Hge : float_ge voltValue vMax = false)
      by (apply float_lt_opp_not_ge; exact Hlt).
    assert (Hraw : raw = 2 ^ 13) by (subst raw; rewrite Hclamp, Hge, Hlt; reflexivity).
    rewrite Hraw, Hlow. split; [lia | split; [tauto |]].
    intros _. unfold arrangeSignedChannelData. rewrite !uint16_uint32.
    apply arrangeChannelData_same_iff. reflexivity.
  - destruct (float_ge voltValue vMax) eqn:Hge.
    + assert (Hraw : raw = 2 ^ 13 - 1)
        by (subst raw; rewrite Hclamp, Hge; reflexivity).
      rewrite Hraw. split; [lia | split; [| discriminate]].
      split; [lia | discriminate].
    + assert (Hlt' : float_lt voltValue vMax = true).
      { unfold float_lt, SFltb. unfold float_ge in Hge. rewrite Hc in *.
        destruct c; [discriminate | reflexivity | discriminate]. }
      assert (Hge' : float_ge voltValue (F32.opp vMax) = true).
      { unfold float_ge. unfold float_lt, SFltb in Hlt. rewrite Hc' in *.
        destruct c'; [reflexivity | discriminate | reflexivity]. }
      destruct (raw_in_range voltValue gain E HgE Hval Hge' Hlt') as (_ & Hr & _).
      fold raw in Hr. split; [lia | split; [| discriminate]].
      split; [lia | discriminate].
Qed.

End RawTheorems.

(** ** Rounding seen as a mantissa and an exponent *)

Section RoundedShape.
Variables prec emax : Z.
Hypothesis prec_pos : 0 < prec.

Lemma shr_1_r (mrs : shr_record) :
  0 <= shr_m mrs -> shr_r (shr_1 mrs) = Z.odd (shr_m mrs).
Proof.
  destruct mrs as [m r s]. cbn [shr_m shr_1].
  destruct m as [| [p | p |] | p]; intros Hm; try reflexivity; lia.
Qed.

Lemma round_nearest_even_no_r (mrs : shr_record) :
  shr_r mrs = false ->
  round_nearest_even (shr_m mrs) (loc_of_shr_record mrs) = shr_m mrs.
Proof.
  destruct mrs as [m r s]. cbn [shr_r shr_m]. intros ->.
  destruct s; reflexivity.
Qed.

(** The result of [binary_round_aux] is a mantissa [m2] at an exponent
    [e2]: not below the input cut to that exponent, and, when the first
    alignment drops at most one bit, not above the input plus one. *)
Lemma binary_round_aux_shape (sx : bool) (mx ex : Z) (lx : location) :
  0 <= mx ->
  let a := Z.max ex (fexp prec emax (Zdigits2 mx + ex)) in
  exists m2 e2,
    binary_round_aux prec emax sx mx ex lx =
    match m2 with
    | Z0 => S754_zero sx
    | Z.pos m => if e2 <=? emax - prec then S754_finite sx m e2
                 else S754_infinity sx
    | Z.neg _ => S754_nan
    end /\
    0 <= m2 /\ a <= e2 /\
    e2 <= Z.max a (fexp prec emax (Zdigits2 (mx + 1) + a)) /\
    mx / 2 ^ (e2 - ex) <= m2 /\
    (a - ex <= 1 -> m2 * 2 ^ (e2 - ex) <= mx + 1).
Proof.
  intros Hmx a. unfold binary_round_aux.
  destruct (shr_fexp_m prec emax mx ex lx Hmx) as [He1 Hm1].
  assert (Hround : a - ex <= 1 ->
            round_nearest_even (shr_m (fst (shr_fexp prec emax mx ex lx)))
              (loc_of_shr_record (fst (shr_fexp prec emax mx ex lx)))
            * 2 ^ (a - ex) <= mx + 1).
  { intros Hn. unfold shr_fexp, shr. fold a in He1.
    assert (Hnn : fexp prec emax (Zdigits2 mx + ex) - ex <= 1) by lia.
    destruct (fexp prec emax (Zdigits2 mx + ex) - ex) as [| p | p] eqn:Hshift;
      cbn [fst].
    - replace (a - ex) with 0 by lia. change (2 ^ 0) with 1.
      rewrite Z.mul_1_r.
      pose proof (round_nearest_even_bounds
                    (shr_m (shr_record_of_loc mx lx))
                    (loc_of_shr_record (shr_record_of_loc mx lx))) as Hb.
      rewrite shr_record_of_loc_m in Hb |- *. lia.
    - assert (Hp : p = 1%positive) by lia. subst p.
      replace (a - ex) with 1 by lia. change (2 ^ 1) with 2.
      cbn [SpecFloat.iter_pos].
      set (r0 := shr_record_of_loc mx lx).
      assert (Hr0 : shr_m r0 = mx) by apply shr_record_of_loc_m.
      assert (Hm : shr_m (shr_1 r0) = mx / 2)
        by (rewrite shr_1_m, Hr0 by (rewrite Hr0; exact Hmx); reflexivity).
      assert (Hr : shr_r (shr_1 r0) = Z.odd mx)
        by (rewrite shr_1_r, Hr0 by (rewrite Hr0; exact Hmx); reflexivity).
      pose proof (Z.div_mod mx 2 ltac:(lia)) as Hdm.
      rewrite Zmod_odd in Hdm.
      destruct (Z.odd mx) eqn:Hodd.
      + pose proof (round_nearest_even_bounds (shr_m (shr_1 r0))
                      (loc_of_shr_record (shr_1 r0))) as Hb.
        rewrite Hm in Hb |- *. lia.
      + rewrite round_nearest_even_no_r by exact Hr. rewrite Hm. lia.
    - replace (a - ex) with 0 by lia. change (2 ^ 0) with 1.
      rewrite Z.mul_1_r.
      pose proof (round_nearest_even_bounds
                    (shr_m (shr_record_of_loc mx lx))
                    (loc_of_shr_record (shr_record_of_loc mx lx))) as Hb.
      rewrite shr_record_of_loc_m in Hb |- *. lia. }
  destruct (shr_fexp prec emax mx ex lx) as [mrs1 e1].
  cbn [fst snd] in He1, Hm1, Hround. fold a in He1, Hm1. subst e1.
  set (m1 := shr_m mrs1) in *.
  pose proof (round_nearest_even_bounds m1 (loc_of_shr_record mrs1)) as Hrnd.
  set (m1' := round_nearest_even m1 (loc_of_shr_record mrs1)) in *.
  assert (Haex : 0 <= a - ex) by lia.
  assert (Hpa : 0 < 2 ^ (a - ex)) by (apply Z.pow_pos_nonneg; lia).
  assert (Hm1nn : 0 <= m1) by (rewrite Hm1; apply Z.div_pos; lia).
  assert (Hm1'nn : 0 <= m1') by lia.
  assert (Hm1le : m1 * 2 ^ (a - ex) <= mx).
  { rewrite Hm1, Z.mul_comm. apply Z.mul_div_le. exact Hpa. }
  assert (Hm1'mx : m1' <= mx + 1).
  { assert (m1 <= m1 * 2 ^ (a - ex)); [| lia].
    rewrite <- (Z.mul_1_r m1) at 1. apply Z.mul_le_mono_nonneg_l; lia. }
  destruct (shr_fexp_m prec emax m1' a loc_Exact Hm1'nn) as [He2 Hm2].
  destruct (shr_fexp prec emax m1' a loc_Exact) as [mrs2 e2].
  cbn [fst snd] in He2, Hm2. rewrite <- He2 in Hm2.
  assert (Hae2 : a <= e2) by lia.
  assert (Hp2 : 0 < 2 ^ (e2 - a)) by (apply Z.pow_pos_nonneg; lia).
  exists (shr_m mrs2), e2.
  split; [reflexivity |].
  split; [rewrite Hm2; apply Z.div_pos; lia |].
  split; [exact Hae2 |].
  split.
  { rewrite He2. apply Z.max_le_compat_l.
    pose proof (Zdigits2_le m1' (mx + 1) ltac:(lia)) as Hdl.
    unfold fexp. lia. }
  split.
  - rewrite Hm2.
    replace (e2 - ex) with ((a - ex) + (e2 - a)) by lia.
    rewrite Z.pow_add_r, <- Z.div_div by lia.
    rewrite <- Hm1. apply Z.div_le_mono; lia.
  - intros Hn. specialize (Hround Hn).
    replace (e2 - ex) with ((e2 - a) + (a - ex)) by lia.
    rewrite Z.pow_add_r, Z.mul_assoc by lia.
    apply Z.le_trans with (m1' * 2 ^ (a - ex)); [| exact Hround].
    apply Z.mul_le_mono_nonneg_r; [lia |].
    rewrite Hm2, Z.mul_comm. apply Z.mul_div_le. exact Hp2.
Qed.

End RoundedShape.

(** ** The raw value is the exact quotient, truncated *)

Section ExactQuotient.
Context {platform : Platform}.

Lemma div_between (a b q : Z) : 0 < b -> q * b <= a < (q + 1) * b -> a / b = q.
Proof.
  intros Hb [Hlo Hhi]. symmetry.
  apply (Z.div_unique a b q (a - q * b)); lia.
Qed.

(** For a normal [float] [m * 2^e] within the exponent of
    [vMax = 10485760 * 2^E], rounding the product and the quotient never
    carries the result across an integer. *)
Lemma quotient_trunc_exact (s : bool) (m : positive) (e E : Z) :
  digits2_pos m = 24%positive -> -149 <= e -> e <= E -> E <= -21 ->
  SFtrunc (F32.div (F32.mul (S754_finite s m e) (F32.of_Z (2 ^ 13)))
                   (S754_finite false 10485760 E))
  = Some (cond_Zopp s (Z.pos m * 2 ^ 24 / (10485760 * 2 ^ (E + 11 - e)))).
Proof.
  intros Hd Hlo HeE HE.
  rewrite mul_8192_exact by lia.
  destruct (SFdiv_normal s m (e + 13) false 10485760 E Hd eq_refl ltac:(lia))
    as [lz ->].
  rewrite xorb_false_r.
  set (q0 := Z.pos m * 2 ^ 24 / 10485760).
  set (e' := e + 13 - E - 24).
  assert (Hmrange : 2 ^ 23 <= Z.pos m < 2 ^ 24).
  { pose proof (Zdigits2_log2 (Z.pos m) ltac:(lia)) as Hl.
    cbn [Zdigits2] in Hl. rewrite Hd in Hl.
    pose proof (Z.log2_spec (Z.pos m) ltac:(lia)) as Hs.
    replace (Z.log2 (Z.pos m)) with 23 in Hs by lia. exact Hs. }
  assert (Hq0 : 2 ^ 23 <= q0 /\ q0 + 1 < 2 ^ 25).
  { subst q0. split.
    - apply Z.div_le_lower_bound; lia.
    - assert (Z.pos m * 2 ^ 24 / 10485760 < 2 ^ 25 - 1); [| lia].
      apply Z.div_lt_upper_bound; lia. }
  destruct Hq0 as [Hq0lo Hq0hi].
  assert (Hq0nn : 0 <= q0) by lia.
  assert (Hdq : 24 <= Zdigits2 q0 <= 25).
  { split; [| apply Zdigits2_lt_pow2; lia].
    rewrite Zdigits2_log2 by lia.
    assert (23 <= Z.log2 q0) by (apply Z.log2_le_pow2; lia). lia. }
  assert (Hdq1 : Zdigits2 (q0 + 1) <= 25) by (apply Zdigits2_lt_pow2; lia).
  destruct (binary_round_aux_shape 24 128 s q0 e' lz Hq0nn)
    as (m2 & e2 & Hres & Hm2nn & Hae & He2 & Hlow & Hup).
  set (a := Z.max e' (fexp 24 128 (Zdigits2 q0 + e'))) in *.
  assert (Hea : e' <= a <= e' + 1)
    by (subst a; unfold fexp, SpecFloat.emin; subst e'; lia).
  assert (He2hi : e2 <= e' + 2)
    by (revert He2; unfold fexp, SpecFloat.emin; subst e'; lia).
  specialize (Hup ltac:(lia)).
  assert (He2neg : e2 <= 0) by (subst e'; lia).
  assert (Htr : SFtrunc (binary_round_aux 24 128 s q0 e' lz)
                = Some (cond_Zopp s (Z.shiftl m2 e2))).
  { rewrite Hres. destruct m2 as [| p2 | p2]; [| | lia].
    - rewrite Z.shiftl_0_l. destruct s; reflexivity.
    - replace (e2 <=? 128 - 24) with true by (symmetry; apply Z.leb_le; lia).
      reflexivity. }
  unfold F32.prec, F32.emax in *. rewrite Htr. do 2 f_equal.
  (* the integral part of the rounded quotient *)
  rewrite Z.shiftl_div_pow2 by exact He2neg.
  set (P := 2 ^ (- e2)). set (G := 2 ^ (e2 - e')) in *.
  set (D' := 2 ^ (E + 8 - e)).
  assert (HP : 0 < P) by (apply Z.pow_pos_nonneg; lia).
  assert (HG : 0 < G) by (apply Z.pow_pos_nonneg; lia).
  assert (HD' : 0 < D') by (apply Z.pow_pos_nonneg; lia).
  assert (HD : 2 ^ (E + 11 - e) = G * P).
  { unfold G, P. rewrite <- Z.pow_add_r by lia. f_equal. subst e'. lia. }
  assert (HD8 : 2 ^ (E + 11 - e) = 8 * D').
  { unfold D'. replace (E + 11 - e) with (3 + (E + 8 - e)) by lia.
    rewrite Z.pow_add_r by lia. reflexivity. }
  set (N0 := Z.pos m * 2 ^ 24 / (10485760 * 2 ^ (E + 11 - e))).
  assert (HN0 : N0 = q0 / (G * P)).
  { unfold N0, q0. rewrite HD. symmetry. apply Z.div_div; lia. }
  assert (HN0lo : N0 * (G * P) <= q0).
  { rewrite HN0, Z.mul_comm. apply Z.mul_div_le. lia. }
  assert (HN0hi : q0 < (N0 + 1) * (G * P)).
  { rewrite HN0, Z.mul_comm. apply Z.mul_succ_div_gt. lia. }
  assert (Hrem : 10485760 * q0 <= Z.pos m * 2 ^ 24 < 10485760 * (q0 + 1)).
  { pose proof (Z.mul_div_le (Z.pos m * 2 ^ 24) 10485760 ltac:(lia)) as H1.
    pose proof (Z.mul_succ_div_gt (Z.pos m * 2 ^ 24) 10485760 ltac:(lia)) as H2.
    fold q0 in H1, H2. unfold Z.succ in H2. lia. }
  apply div_between; [exact HP |]. split.
  - apply Z.le_trans with (q0 / G); [| exact Hlow].
    apply Z.div_le_lower_bound; [exact HG |]. lia.
  - destruct (Z.lt_ge_cases m2 ((N0 + 1) * P)) as [Hlt | Hge]; [exact Hlt |].
    exfalso.
    assert (Hm2G : (N0 + 1) * P * G <= m2 * G)
      by (apply Z.mul_le_mono_nonneg_r; lia).
    assert (Heq : q0 + 1 = (N0 + 1) * (G * P)) by lia.
    assert (HX : 10485760 * (q0 + 1) = 83886080 * ((N0 + 1) * D')).
    { rewrite Heq, <- HD, HD8. ring. }
    change (2 ^ 24) with 16777216 in Hrem.
    set (X := (N0 + 1) * D') in *. lia.
Qed.

End ExactQuotient.

(** ** The raw value in terms of the input's value *)

Section ExactRaw.
Context {platform : Platform}.

Lemma quot_cond_Zopp (s : bool) (a b : Z) :
  0 <= a -> 0 < b -> Z.quot (cond_Zopp s a) b = cond_Zopp s (a / b).
Proof.
  intros Ha Hb. destruct s; cbn [cond_Zopp].
  - rewrite Z.quot_opp_l, Z.quot_div_nonneg by lia. reflexivity.
  - apply Z.quot_div_nonneg; lia.
Qed.

Lemma cond_Zopp_mul (s : bool) (a b : Z) :
  cond_Zopp s a * b = cond_Zopp s (a * b).
Proof. destruct s; cbn [cond_Zopp]; ring. Qed.

(** The raw value as the truncated exact quotient
    [voltValue * 2^13 / (10485760 * 2^E)]. *)
Lemma raw_exact (v : float) (gain E : Z) :
  gain = 1 /\ E = -21 \/ gain = 0 /\ E = -23 ->
  F32.valid v = true ->
  float_ge v (F32.opp (S754_finite false 10485760 E)) = true ->
  float_lt v (S754_finite false 10485760 E) = true ->
  getSignedRawFromVolt v gain
  = Z.quot (SFnum v * 2 ^ 13 * 2 ^ (- E)) (SFden v * 10485760).
Proof.
  intros HgE Hval Hge Hlt.
  assert (HE : -23 <= E <= -21) by (destruct HgE as [[_ ->] | [_ ->]]; lia).
  destruct (raw_in_range v gain E HgE Hval Hge Hlt) as (Hz & _ & _).
  destruct v as [s | s | | s m e]; try (destruct s; discriminate);
    try discriminate.
  - cbn [SFnum]. cbn in Hz. injection Hz as <-. reflexivity.
  - destruct (valid_finite_form _ _ _ Hval) as [Hlo Hform].
    destruct (in_range_form _ _ _ _ _ Hge Hlt) as [HeE _].
    cbn [SFnum SFden].
    replace (Z.max e 0) with 0 by lia. replace (Z.max (- e) 0) with (- e) by lia.
    change (2 ^ 0) with 1. rewrite Z.mul_1_r, !cond_Zopp_mul.
    assert (Hpe : 0 < 2 ^ (- e)) by (apply Z.pow_pos_nonneg; lia).
    assert (HpE : 0 < 2 ^ (- E)) by (apply Z.pow_pos_nonneg; lia).
    rewrite quot_cond_Zopp by lia.
    destruct Hform as [Hd | Hsub].
    + rewrite (quotient_trunc_exact s m e E Hd Hlo HeE ltac:(lia)) in Hz.
      injection Hz as <-. f_equal.
      set (c := 2 ^ (- 11 - E)).
      assert (Hc : 0 < c) by (apply Z.pow_pos_nonneg; lia).
      assert (Hnum : Z.pos m * 2 ^ 13 * 2 ^ (- E) = Z.pos m * 2 ^ 24 * c).
      { unfold c. rewrite <- !Z.mul_assoc, <- !Z.pow_add_r by lia.
        do 2 f_equal. lia. }
      assert (Hden : 2 ^ (- e) * 10485760 = 10485760 * 2 ^ (E + 11 - e) * c).
      { unfold c. rewrite <- Z.mul_assoc, <- Z.pow_add_r by lia.
        rewrite Z.mul_comm. do 2 f_equal. lia. }
      rewrite Hnum, Hden. symmetry. apply Z.div_mul_cancel_r; [| lia].
      assert (0 < 2 ^ (E + 11 - e)) by (apply Z.pow_pos_nonneg; lia). lia.
    + (* below the normal range: the quotient is less than one *)
      assert (Hv : mag_below (-126) (S754_finite s m e) = true).
      { cbn [mag_below]. apply Z.leb_le. exact Hsub. }
      pose proof (SFmul_mag 24 128 ltac:(lia) _ (F32.of_Z (2 ^ 13))
                    (-126) 14 Hv eq_refl
                    ltac:(unfold SpecFloat.emin; lia)) as Hp.
      pose proof (SFdiv_mag 24 128 ltac:(lia) _ false 10485760 E
                    (-126 + 14 + 1) Hp) as Hq.
      cbn zeta in Hq. cbn [digits2_pos Pos.succ] in Hq.
      specialize (Hq ltac:(unfold SpecFloat.emin; lia)).
      apply (mag_below_mono _ 0) in Hq; [| lia].
      destruct (SFtrunc_mag _ 0 ltac:(lia) Hq) as (z & Hz' & Hzr).
      unfold F32.mul, F32.div, F32.prec, F32.emax in Hz.
      rewrite Hz' in Hz. injection Hz as <-.
      assert (Hz0 : z = 0) by (change (2 ^ 0) with 1 in Hzr; lia).
      rewrite Hz0. rewrite Z.div_small; [destruct s; reflexivity |].
      split; [lia |].
      assert (Hm : Z.pos m < 2 ^ Z.pos (digits2_pos m)).
      { pose proof (Zdigits2_log2 (Z.pos m) ltac:(lia)) as Hl.
        cbn [Zdigits2] in Hl. rewrite Hl. apply Z.log2_spec. lia. }
      apply Z.lt_le_trans with (2 ^ Z.pos (digits2_pos m) * 2 ^ 13 * 2 ^ (- E)).
      * rewrite <- !Z.mul_assoc. apply Z.mul_lt_mono_pos_r; [lia | exact Hm].
      * rewrite <- !Z.pow_add_r by lia.
        apply Z.le_trans with (2 ^ (- e)); [apply Z.pow_le_mono_r; lia | lia].
Qed.

(** X13: for every [float] in the range the two roundings of the
    source lose nothing: the raw value is the exact quotient
    [voltValue * 2^13 / vMax], computed without error and truncated
    toward zero; with [vMax] written out, it is
    [voltValue * 8192 / 5] for gain 1 and [voltValue * 8192 * 4 / 5]
    for gain 0. *)
Theorem getSignedRawFromVolt_exact (voltValue : float) (gain : Z) :
  F32.valid voltValue = true ->
  gain = 0 \/ gain = 1 ->
  let vMax :=
    if gain =? 1 then F32.of_Z 5 else F32.of_double (F64.literal 125 100) in
  float_ge voltValue (F32.opp vMax) = true ->
  float_lt voltValue vMax = true ->
  getSignedRawFromVolt voltValue gain
  = Z.quot (SFnum voltValue * 2 ^ 13 * SFden vMax)
           (SFden voltValue * SFnum vMax) /\
  getSignedRawFromVolt voltValue gain
  = Z.quot (SFnum voltValue * 2 ^ 13 * (if gain =? 1 then 1 else 4))
           (SFden voltValue * 5).
Proof.
  intros Hval Hgain vMax. destruct (gain_vMax gain Hgain) as (E & HgE & HvMax).
  subst vMax. rewrite HvMax. intros Hge Hlt.
  rewrite (raw_exact voltValue gain E HgE Hval Hge Hlt).
  assert (Hden : 0 < SFden voltValue).
  { destruct voltValue as [s | s | | s m e]; cbn [SFden];
      first [lia | apply Z.pow_pos_nonneg; lia]. }
  destruct HgE as [[-> ->] | [-> ->]]; cbn [Z.eqb SFnum SFden];
    (split; [reflexivity |]).
  - change (2 ^ (- -21)) with (1 * 2 ^ 21).
    change 10485760 with (5 * 2 ^ 21).
    rewrite !Z.mul_assoc. apply Z.quot_mul_cancel_r; lia.
  - change (2 ^ (- -23)) with (4 * 2 ^ 21).
    change 10485760 with (5 * 2 ^ 21).
    rewrite !Z.mul_assoc. apply Z.quot_mul_cancel_r; lia.
Qed.

End ExactRaw.

(** ** Comparison and value of binary32 numbers *)

Section ValueOrder.

(** The mantissa of a valid [float]: below [2^24], and at least [2^23]
    above the smallest exponent. *)
Lemma valid_canonical (s : bool) (m : positive) (e : Z) :
  F32.valid (S754_finite s m e) = true ->
  -149 <= e /\ Z.pos m < 2 ^ 24 /\ (-149 < e -> 2 ^ 23 <= Z.pos m).
Proof.
  unfold F32.valid, F32.prec, F32.emax. cbn [valid_binary].
  unfold bounded, canonical_mantissa, fexp, SpecFloat.emin.
  intros Hv. apply andb_true_iff in Hv as [Hcan _]. apply Z.eqb_eq in Hcan.
  pose proof (Zdigits2_log2 (Z.pos m) ltac:(lia)) as Hl.
  cbn [Zdigits2] in Hl.
  pose proof (Z.log2_spec (Z.pos m) ltac:(lia)) as [Hlo Hhi].
  split; [lia |]. split.
  - apply Z.lt_le_trans with (2 ^ Z.succ (Z.log2 (Z.pos m))); [exact Hhi |].
    apply Z.pow_le_mono_r; lia.
  - intros He. apply Z.le_trans with (2 ^ Z.log2 (Z.pos m)); [| exact Hlo].
    apply Z.pow_le_mono_r; lia.
Qed.

Lemma mag_lt (m1 m2 : positive) (e1 e2 : Z) :
  Z.pos m1 < 2 ^ 24 -> 2 ^ 23 <= Z.pos m2 -> e1 < e2 ->
  Z.pos m1 * 2 ^ Z.max e1 0 * 2 ^ Z.max (- e2) 0
  < Z.pos m2 * 2 ^ Z.max e2 0 * 2 ^ Z.max (- e1) 0.
Proof.
  intros H1 H2 He.
  set (A := Z.max e1 0 + Z.max (- e2) 0).
  assert (HL : Z.pos m1 * 2 ^ Z.max e1 0 * 2 ^ Z.max (- e2) 0
               = Z.pos m1 * 2 ^ A).
  { unfold A. rewrite Z.pow_add_r by lia. ring. }
  assert (HR : Z.pos m2 * 2 ^ Z.max e2 0 * 2 ^ Z.max (- e1) 0
               = Z.pos m2 * 2 ^ (e2 - e1) * 2 ^ A).
  { rewrite <- !Z.mul_assoc, <- !Z.pow_add_r by lia.
    do 2 f_equal. unfold A. lia. }
  rewrite HL, HR.
  apply Z.mul_lt_mono_pos_r; [apply Z.pow_pos_nonneg; lia |].
  assert (Hq : 2 ^ 1 <= 2 ^ (e2 - e1)) by (apply Z.pow_le_mono_r; lia).
  change (2 ^ 1) with 2 in Hq.
  apply Z.lt_le_trans with (2 ^ 23 * 2); [exact H1 |].
  apply Z.mul_le_mono_nonneg; lia.
Qed.

Lemma mag_compare (s1 s2 : bool) (m1 m2 : positive) (e1 e2 : Z) :
  F32.valid (S754_finite s1 m1 e1) = true ->
  F32.valid (S754_finite s2 m2 e2) = true ->
  match e1 ?= e2 with
  | Lt => Lt
  | Gt => Gt
  | Eq => Pos.compare_cont Eq m1 m2
  end
  = (Z.pos m1 * 2 ^ Z.max e1 0 * 2 ^ Z.max (- e2) 0
     ?= Z.pos m2 * 2 ^ Z.max e2 0 * 2 ^ Z.max (- e1) 0).
Proof.
  intros H1 H2.
  destruct (valid_canonical _ _ _ H1) as (Hl1 & Hu1 & Hn1).
  destruct (valid_canonical _ _ _ H2) as (Hl2 & Hu2 & Hn2).
  destruct (Z.compare_spec e1 e2) as [He | He | He].
  - subst e2.
    assert (Hp : 0 < 2 ^ Z.max e1 0) by (apply Z.pow_pos_nonneg; lia).
    assert (Hq : 0 < 2 ^ Z.max (- e1) 0) by (apply Z.pow_pos_nonneg; lia).
    change (Pos.compare_cont Eq m1 m2) with (Pos.compare m1 m2).
    destruct (Pos.compare_spec m1 m2) as [Hm | Hm | Hm]; symmetry.
    + subst m2. apply Z.compare_refl.
    + apply Z.compare_lt_iff.
      do 2 (apply Z.mul_lt_mono_pos_r; [assumption |]). lia.
    + apply Z.compare_gt_iff.
      do 2 (apply Z.mul_lt_mono_pos_r; [assumption |]). lia.
  - symmetry. apply Z.compare_lt_iff. apply mag_lt; [lia | | lia].
    apply Hn2. lia.
  - symmetry. apply Z.compare_gt_iff. apply mag_lt; [lia | | lia].
    apply Hn1. lia.
Qed.

(** On valid finite [float]s the comparison of the source is the
    comparison of the values. *)
Lemma SFcompare_value (a b : float) :
  F32.valid a = true -> F32.valid b = true ->
  is_finite a = true -> is_finite b = true ->
  SFcompare a b = Some (SFnum a * SFden b ?= SFnum b * SFden a).
Proof.
  intros Ha Hb Hfa Hfb.
  destruct a as [sa | sa | | sa ma ea]; try discriminate;
    destruct b as [sb | sb | | sb mb eb]; try discriminate;
    cbn [SFcompare SFnum SFden].
  - reflexivity.
  - f_equal. symmetry. rewrite Z.mul_1_r.
    assert (0 < Z.pos mb * 2 ^ Z.max eb 0)
      by (apply Z.mul_pos_pos; [lia | apply Z.pow_pos_nonneg; lia]).
    assert (0 < 2 ^ Z.max (- eb) 0) by (apply Z.pow_pos_nonneg; lia).
    destruct sb; cbn [cond_Zopp].
    + apply Z.compare_gt_iff. lia.
    + apply Z.compare_lt_iff. lia.
  - f_equal. symmetry. rewrite Z.mul_1_r.
    assert (0 < Z.pos ma * 2 ^ Z.max ea 0)
      by (apply Z.mul_pos_pos; [lia | apply Z.pow_pos_nonneg; lia]).
    destruct sa; cbn [cond_Zopp].
    + apply Z.compare_lt_iff. lia.
    + apply Z.compare_gt_iff. lia.
  - f_equal.
    assert (Hx : 0 < Z.pos ma * 2 ^ Z.max ea 0 * 2 ^ Z.max (- eb) 0)
      by (repeat apply Z.mul_pos_pos; first [lia | apply Z.pow_pos_nonneg; lia]).
    assert (Hy : 0 < Z.pos mb * 2 ^ Z.max eb 0 * 2 ^ Z.max (- ea) 0)
      by (repeat apply Z.mul_pos_pos; first [lia | apply Z.pow_pos_nonneg; lia]).
    destruct sa, sb; cbn [cond_Zopp].
    + rewrite !Z.mul_opp_l, Z.compare_opp.
      rewrite <- (mag_compare true true mb ma eb ea Hb Ha).
      rewrite (Z.compare_antisym eb ea).
      destruct (eb ?= ea); cbn [CompOpp]; try reflexivity.
      rewrite Pos.compare_cont_antisym. reflexivity.
    + symmetry. apply Z.compare_lt_iff. lia.
    + symmetry. apply Z.compare_gt_iff. lia.
    + apply (mag_compare false false ma mb ea eb Ha Hb).
Qed.

End ValueOrder.

(** ** Monotonicity of the conversion *)

Section Monotone.
Context {platform : Platform}.

Lemma SFden_pos (x : spec_float) : 0 < SFden x.
Proof.
  destruct x as [s | s | | s m e]; cbn [SFden];
    first [lia | apply Z.pow_pos_nonneg; lia].
Qed.

Lemma float_ge_value (a b : float) :
  F32.valid a = true -> F32.valid b = true ->
  is_finite a = true -> is_finite b = true ->
  float_ge a b = true <-> SFnum b * SFden a <= SFnum a * SFden b.
Proof.
  intros Ha Hb Hfa Hfb. unfold float_ge.
  rewrite (SFcompare_value a b Ha Hb Hfa Hfb).
  destruct (Z.compare_spec (SFnum a * SFden b) (SFnum b * SFden a));
    split; intros; first [reflexivity | discriminate | lia].
Qed.

Lemma float_lt_value (a b : float) :
  F32.valid a = true -> F32.valid b = true ->
  is_finite a = true -> is_finite b = true ->
  float_lt a b = true <-> SFnum a * SFden b < SFnum b * SFden a.
Proof.
  intros Ha Hb Hfa Hfb. unfold float_lt, SFltb.
  rewrite (SFcompare_value a b Ha Hb Hfa Hfb).
  destruct (Z.compare_spec (SFnum a * SFden b) (SFnum b * SFden a));
    split; intros; first [reflexivity | discriminate | lia].
Qed.

Lemma frac_le_lt_trans (n1 d1 n2 d2 n3 d3 : Z) :
  0 < d1 -> 0 < d2 -> 0 < d3 ->
  n1 * d2 <= n2 * d1 -> n2 * d3 < n3 * d2 -> n1 * d3 < n3 * d1.
Proof.
  intros H1 H2 H3 Ha Hb.
  apply (Z.mul_lt_mono_pos_r d2); [exact H2 |].
  apply Z.le_lt_trans with (n2 * d1 * d3).
  - replace (n1 * d3 * d2) with (n1 * d2 * d3) by ring.
    apply Z.mul_le_mono_nonneg_r; lia.
  - replace (n2 * d1 * d3) with (n2 * d3 * d1) by ring.
    replace (n3 * d1 * d2) with (n3 * d2 * d1) by ring.
    apply Z.mul_lt_mono_pos_r; lia.
Qed.

Lemma frac_le_trans (n1 d1 n2 d2 n3 d3 : Z) :
  0 < d1 -> 0 < d2 -> 0 < d3 ->
  n1 * d2 <= n2 * d1 -> n2 * d3 <= n3 * d2 -> n1 * d3 <= n3 * d1.
Proof.
  intros H1 H2 H3 Ha Hb.
  apply (Z.mul_le_mono_pos_r _ _ d2); [exact H2 |].
  apply Z.le_trans with (n2 * d1 * d3).
  - replace (n1 * d3 * d2) with (n1 * d2 * d3) by ring.
    apply Z.mul_le_mono_nonneg_r; lia.
  - replace (n2 * d1 * d3) with (n2 * d3 * d1) by ring.
    replace (n3 * d1 * d2) with (n3 * d2 * d1) by ring.
    apply Z.mul_le_mono_nonneg_r; lia.
Qed.

(** The three branches of the source, with [vMax] evaluated. *)
Lemma getSignedRawFromVolt_cases (v : float) (gain E : Z) :
  gain = 1 /\ E = -21 \/ gain = 0 /\ E = -23 ->
  getSignedRawFromVolt v gain =
  if float_ge v (S754_finite false 10485760 E) then 2 ^ 13 - 1
  else if float_lt v (F32.opp (S754_finite false 10485760 E)) then 2 ^ 13
  else float_to_int32 (F32.div (F32.mul v (F32.of_Z (2 ^ 13)))
                               (S754_finite false 10485760 E)).
Proof. intros [[-> ->] | [-> ->]]; reflexivity. Qed.

(** Monotonicity inside the range, from the exact quotient. *)
Lemma raw_monotone (v1 v2 : float) (gain E : Z) :
  gain = 1 /\ E = -21 \/ gain = 0 /\ E = -23 ->
  F32.valid v1 = true -> F32.valid v2 = true ->
  float_ge v1 (F32.opp (S754_finite false 10485760 E)) = true ->
  float_lt v1 (S754_finite false 10485760 E) = true ->
  float_ge v2 (F32.opp (S754_finite false 10485760 E)) = true ->
  float_lt v2 (S754_finite false 10485760 E) = true ->
  SFnum v1 * SFden v2 <= SFnum v2 * SFden v1 ->
  getSignedRawFromVolt v1 gain <= getSignedRawFromVolt v2 gain.
Proof.
  intros HgE Hv1 Hv2 Hge1 Hlt1 Hge2 Hlt2 Hle.
  rewrite (raw_exact v1 gain E HgE Hv1 Hge1 Hlt1).
  rewrite (raw_exact v2 gain E HgE Hv2 Hge2 Hlt2).
  pose proof (SFden_pos v1) as Hd1. pose proof (SFden_pos v2) as Hd2.
  assert (HK : 0 < 2 ^ 13 * 2 ^ (- E))
    by (destruct HgE as [[_ ->] | [_ ->]]; reflexivity).
  rewrite <- (Z.quot_mul_cancel_r (SFnum v1 * 2 ^ 13 * 2 ^ (- E))
                (SFden v1 * 10485760) (SFden v2)) by lia.
  rewrite <- (Z.quot_mul_cancel_r (SFnum v2 * 2 ^ 13 * 2 ^ (- E))
                (SFden v2 * 10485760) (SFden v1)) by lia.
  replace (SFden v2 * 10485760 * SFden v1)
    with (SFden v1 * 10485760 * SFden v2) by ring.
  apply Z.quot_le_mono; [lia |].
  replace (SFnum v1 * 2 ^ 13 * 2 ^ (- E) * SFden v2)
    with (SFnum v1 * SFden v2 * (2 ^ 13 * 2 ^ (- E))) by ring.
  replace (SFnum v2 * 2 ^ 13 * 2 ^ (- E) * SFden v1)
    with (SFnum v2 * SFden v1 * (2 ^ 13 * 2 ^ (- E))) by ring.
  apply Z.mul_le_mono_nonneg_r; lia.
Qed.

(** X14: the conversion is monotone from [-vMax] upwards, the upper
    clamp included: for [-vMax <= v1 <= v2] the raw value of [v1] is at
    most the raw value of [v2]. *)
Theorem getSignedRawFromVolt_monotone (v1 v2 : float) (gain : Z) :
  F32.valid v1 = true -> F32.valid v2 = true ->
  gain = 0 \/ gain = 1 ->
  let vMax :=
    if gain =? 1 then F32.of_Z 5 else F32.of_double (F64.literal 125 100) in
  float_ge v1 (F32.opp vMax) = true ->
  float_ge v2 v1 = true ->
  getSignedRawFromVolt v1 gain <= getSignedRawFromVolt v2 gain.
Proof.
  intros Hv1 Hv2 Hgain vMax. destruct (gain_vMax gain Hgain) as (E & HgE & HvMax).
  subst vMax. rewrite HvMax. set (vMax := S754_finite false 10485760 E).
  intros Hge1 Hge21.
  assert (HvM : F32.valid vMax = true)
    by (subst vMax; destruct HgE as [[_ ->] | [_ ->]]; reflexivity).
  assert (HvM' : F32.valid (F32.opp vMax) = true)
    by (subst vMax; destruct HgE as [[_ ->] | [_ ->]]; reflexivity).
  assert (Hn1 : v1 <> S754_nan) by (intros ->; discriminate).
  assert (Hn2 : v2 <> S754_nan) by (intros ->; discriminate).
  destruct (SFcompare_total v1 vMax Hn1 ltac:(discriminate)) as [c1 Hc1].
  destruct (SFcompare_total v2 vMax Hn2 ltac:(discriminate)) as [c2 Hc2].
  assert (Htot : forall v c, SFcompare v vMax = Some c ->
                   float_ge v vMax = false -> float_lt v vMax = true).
  { intros v c Hc. unfold float_ge, float_lt, SFltb. rewrite Hc.
    destruct c; intros; first [reflexivity | discriminate]. }
  pose proof (getSignedRawFromVolt_cases v1 gain E HgE) as HC1.
  pose proof (getSignedRawFromVolt_cases v2 gain E HgE) as HC2.
  fold vMax in HC1, HC2.
  destruct (float_ge v2 vMax) eqn:Hge2.
  - (* [v2] at or above [vMax] *)
    rewrite HC2.
    destruct (float_ge v1 vMax) eqn:Hge1'; [rewrite HC1; lia |].
    pose proof (Htot v1 c1 Hc1 Hge1') as Hlt1.
    destruct (raw_in_range v1 gain E HgE Hv1 Hge1 Hlt1) as (_ & Hr & _). lia.
  - pose proof (Htot v2 c2 Hc2 Hge2) as Hlt2. clear HC1 HC2.
    assert (Hf1 : is_finite v1 = true).
    { destruct v1 as [s | [|] | | s m e]; try reflexivity; try discriminate.
      destruct v2 as [s | [|] | | s m e]; discriminate. }
    assert (Hf2 : is_finite v2 = true).
    { destruct v2 as [s | [|] | | s m e]; try reflexivity; try discriminate.
      destruct v1 as [s | [|] | | s m e]; discriminate. }
    apply (float_ge_value v1 (F32.opp vMax) Hv1 HvM' Hf1 eq_refl) in Hge1.
    apply (float_ge_value v2 v1 Hv2 Hv1 Hf2 Hf1) in Hge21.
    apply (float_lt_value v2 vMax Hv2 HvM Hf2 eq_refl) in Hlt2.
    pose proof (SFden_pos v1) as Hd1. pose proof (SFden_pos v2) as Hd2.
    pose proof (SFden_pos vMax) as HdM.
    pose proof (SFden_pos (F32.opp vMax)) as HdM'.
    apply (raw_monotone v1 v2 gain E HgE Hv1 Hv2).
    + apply (float_ge_value v1 (F32.opp vMax) Hv1 HvM' Hf1 eq_refl). exact Hge1.
    + apply (float_lt_value v1 vMax Hv1 HvM Hf1 eq_refl).
      exact (frac_le_lt_trans _ _ _ _ _ _ Hd1 Hd2 HdM Hge21 Hlt2).
    + apply (float_ge_value v2 (F32.opp vMax) Hv2 HvM' Hf2 eq_refl).
      exact (frac_le_trans _ _ _ _ _ _ HdM' Hd1 Hd2 Hge1 Hge21).
    + apply (float_lt_value v2 vMax Hv2 HvM Hf2 eq_refl). exact Hlt2.
    + exact Hge21.
Qed.

End Monotone.

(** ** The multiplicative coefficient and the gain *)

Section GainIndependence.
Context {platform : Platform}.

(** The two quotients [5.0 / 5.32] and [1.25 / 1.33] of the source are
    one and the same [double]. *)
Lemma range_ratio_same :
  F64.div IDEAL_RANGE_DAC_HIGH REAL_RANGE_DAC_HIGH
  = F64.div IDEAL_RANGE_DAC_LOW REAL_RANGE_DAC_LOW.
Proof. vm_compute. reflexivity. Qed.

(** X15: the multiplicative coefficient does not depend on the gain at
    all: both branches of the source's conditional divide to the same
    [double], so [computeCoefMult] returns the same value for every two
    gains. *)
Theorem computeCoefMult_gain_independent (cg : float) (gain gain' : Z) :
  computeCoefMult cg gain = computeCoefMult cg gain'.
Proof.
  unfold computeCoefMult.
  destruct (negb (gain =? 0)), (negb (gain' =? 0));
    rewrite ?range_ratio_same; reflexivity.
Qed.

End GainIndependence.

(** * The multiplicative coefficient against the exact formula

    [computeCoefMult] rounds three times on the way to [fval]: the sum
    [1 + cg] to binary32, the quotient to binary64 and the product to
    binary32.  The lemmas below follow each rounding and bound the
    distance of [fval] from the exact value of the formula. *)

(** ** Rounding to within one unit in the last place *)

Section NearRounding.
Variables prec emax : Z.
Hypothesis prec_gt : 1 < prec.




End NearRounding.

(** ** Roundings that change nothing *)

Section ExactRounding.
Variables prec emax : Z.
Hypothesis prec_gt : 1 < prec.








End ExactRounding.

(** ** The steps of [computeCoefMult] *)

Section CoefSteps.
Context {platform : Platform}.







End CoefSteps.

(** ** The arithmetic of the bound *)



(** ** The exact formula *)

Section ExactFormula.




End ExactFormula.

(** ** The source against the exact formula *)

Section NearFormula.
Context {platform : Platform}.





End NearFormula.


(** ** The further theorems at concrete inputs *)

Section WitnessesMore.
Import Sim.

Lemma setData_frame_witness :
  (0 = 0 \/ 0 = uint8 ERR_FAIL) /\
  calib {| calib := None;
           hw := poll_n 3 (setTransferSize 64 (sim_init 0 2 0));
           trace := [EvSetTransferSize 64; EvStartDMATransfer 4096 0;
                     EvIsDMATransferComplete false;
                     EvIsDMATransferComplete false;
                     EvIsDMATransferComplete true] |}
  = calib (sim_zmod None (sim_init 0 2 0)).
Proof.
  destruct (proj2 (setData_frame (base := sim_base) (platform := sim_platform)
                     3 4096 16 (sim_zmod None (sim_init 0 2 0)))
              0 _ eq_refl)
    as (Hr & Hc & _).
  split; [exact Hr | exact Hc].
Defined.

Lemma byte_count_wraps_witness :
  allocChannelsBuffer (buffers := SimBuffers.sim_buffers)
    (platform := sim_platform) (16 + 1 * 2 ^ 30)
    {| calib := None; hw := SimBuffers.empty_heap; trace := [] |}
  = allocChannelsBuffer (buffers := SimBuffers.sim_buffers)
      (platform := sim_platform) 16
      {| calib := None; hw := SimBuffers.empty_heap; trace := [] |} /\
  setData (base := SimBuffers.heap_base) (platform := sim_platform)
    3 4096 (16 + 1 * 2 ^ 30)
    {| calib := None; hw := SimBuffers.empty_heap; trace := [] |}
  = setData (base := SimBuffers.heap_base) (platform := sim_platform)
      3 4096 16
      {| calib := None; hw := SimBuffers.empty_heap; trace := [] |}.
Proof.
  destruct (byte_count_wraps (base := SimBuffers.heap_base)
              (buffers := SimBuffers.sim_buffers) (platform := sim_platform)
              3 4096 16 1
              {| calib := None; hw := SimBuffers.empty_heap; trace := [] |})
    as (_ & Ha & _ & Hs).
  - cbn. lia.
  - split; [exact Ha | exact Hs].
Defined.

Lemma setCalibValues_compose_witness :
  (setCalibValues 1 0 (F32.of_Z 2) (F32.of_Z 3) ;;
   setCalibValues 1 0 (F32.of_Z 4) (F32.of_Z 5))
    (sim_zmod loaded (sim_init 0 0 0))
  = setCalibValues 1 0 (F32.of_Z 4) (F32.of_Z 5)
      (sim_zmod loaded (sim_init 0 0 0)) /\
  (setCalibValues 1 0 (F32.of_Z 2) (F32.of_Z 3) ;;
   setCalibValues 0 1 (F32.of_Z 4) (F32.of_Z 5))
    (sim_zmod loaded (sim_init 0 0 0))
  = (setCalibValues 0 1 (F32.of_Z 4) (F32.of_Z 5) ;;
     setCalibValues 1 0 (F32.of_Z 2) (F32.of_Z 3))
      (sim_zmod loaded (sim_init 0 0 0)).
Proof.
  destruct (setCalibValues_compose 1 0 0 1
              (F32.of_Z 2) (F32.of_Z 3) (F32.of_Z 4) (F32.of_Z 5)
              (sim_zmod loaded (sim_init 0 0 0)) {| cal := unit_cal |}
              eq_refl eq_refl)
    as [Hsame Hdiff]; try lia.
  split; [exact Hsame | apply Hdiff; left; lia].
Defined.

Lemma control_commutes_with_setCalibValues_witness :
  (start ;; setCalibValues 1 0 (F32.of_Z 2) (F32.of_Z 3))
    (sim_zmod loaded (sim_init 0 0 0))
  = (setCalibValues 1 0 (F32.of_Z 2) (F32.of_Z 3) ;; start)
      (sim_zmod loaded (sim_init 0 0 0)).
Proof.
  apply (control_commutes_with_setCalibValues (base := sim_base) 0 0 0 start
           1 0 (F32.of_Z 2) (F32.of_Z 3) (sim_zmod loaded (sim_init 0 0 0))).
  right. left. reflexivity.
Defined.

Lemma readUserCalib_null_calib_witness :
  readUserCalib (base := SimNoArea.bare_base) (platform := sim_platform)
    {| calib := None; hw := tt; trace := [] |} = Undefined.
Proof.
  exact (proj1 (readUserCalib_null_calib (base := SimNoArea.bare_base)
                  (platform := sim_platform)
                  {| calib := None; hw := tt; trace := [] |} tt eq_refl)).
Defined.

Lemma gain_nonzero_is_high_witness :
  computeCoefMult (platform := sim_platform) (F32.of_Z 1) 2
  = computeCoefMult (platform := sim_platform) (F32.of_Z 1) 1 /\
  getSignedRawFromVolt (platform := sim_platform) (F32.of_Z 3) 2
  = getSignedRawFromVolt (platform := sim_platform) (F32.of_Z 3) 1.
Proof.
  destruct (gain_nonzero_is_high (platform := sim_platform) 2
              (F32.of_Z 1) (F32.of_Z 0) (F32.of_Z 3)) as (Hm & _ & Hr).
  - lia.
  - split; [exact Hm | exact Hr].
Defined.

Lemma computeCoefAdd_zero_witness :
  computeCoefAdd (platform := sim_platform) (S754_zero false) (F32.of_Z 1) 1
  = 0.
Proof.
  apply (computeCoefAdd_zero (platform := sim_platform) false (F32.of_Z 1) 1).
  reflexivity.
Defined.

Lemma getSignedRawFromVolt_14bit_witness :
  - 2 ^ 13 <= getSignedRawFromVolt (platform := sim_platform) (F32.of_Z (-1)) 1
           <= 2 ^ 13 - 1.
Proof.
  exact (proj1 (getSignedRawFromVolt_14bit (platform := sim_platform)
                  (F32.of_Z (-1)) 1 eq_refl (or_intror eq_refl)
                  eq_refl eq_refl)).
Defined.

Lemma getSignedRawFromVolt_odd_witness :
  getSignedRawFromVolt (platform := sim_platform) (F32.opp (F32.of_Z 1)) 0
  = - getSignedRawFromVolt (platform := sim_platform) (F32.of_Z 1) 0.
Proof.
  exact (getSignedRawFromVolt_odd (platform := sim_platform)
           (F32.of_Z 1) 0 eq_refl (or_introl eq_refl) eq_refl eq_refl).
Defined.

Lemma getSignedRawFromVolt_total_range_witness :
  - 2 ^ 13 <= getSignedRawFromVolt (platform := sim_platform) (F32.of_Z (-7)) 1
           <= 2 ^ 13.
Proof.
  apply (getSignedRawFromVolt_total_range (platform := sim_platform)
           (F32.of_Z (-7)) 1 0 eq_refl).
  - discriminate.
  - right. reflexivity.
Defined.

Lemma getSignedRawFromVolt_exact_witness :
  getSignedRawFromVolt (platform := sim_platform) (F32.of_Z (-1)) 1
  = Z.quot (-1 * 2 ^ 13 * 1) (1 * 5).
Proof.
  exact (proj2 (getSignedRawFromVolt_exact (platform := sim_platform)
                  (F32.of_Z (-1)) 1 eq_refl (or_intror eq_refl)
                  eq_refl eq_refl)).
Defined.

Lemma getSignedRawFromVolt_monotone_witness :
  getSignedRawFromVolt (platform := sim_platform) (F32.of_Z (-1)) 1
  <= getSignedRawFromVolt (platform := sim_platform) (F32.of_Z 7) 1.
Proof.
  exact (getSignedRawFromVolt_monotone (platform := sim_platform)
           (F32.of_Z (-1)) (F32.of_Z 7) 1 eq_refl eq_refl
           (or_intror eq_refl) eq_refl eq_refl).
Defined.


End WitnessesMore.
